(** * SharedVars.js: the protocol engine of shared-vars.js

    A shallow embedding of [src/SharedVars.js]: the request table
    ([_genRid], [_getRidCallback], [_getNextRid]), the dispatcher
    ([_handleMessage] and the three handlers it routes to), the peer registry
    ([_addPeer], [_removePeer]), the protocol methods ([connect], [lookup],
    [publish], [onPublish]) and the two local helpers ([parseRinfo],
    [rinfoEqual]).

    Conventions of the embedding.
    - A JavaScript number is an integer of [Z] or [NaN]; the fractional
      offset [Math.random() * RID_MAX] that the constructor draws is a field
      of the initial state and is taken integral.
    - A string is a [string] of bytes; a [Buffer] is a list of bytes.
    - The instance is a record [Engine]; a method is a computation of the
      monad [M], which threads the instance, logs what leaves it (datagrams
      handed to the socket, calls of functions supplied by the application)
      and ends with a value, with a thrown exception, or with no result
      ([Stuck]: a loop out of fuel, a closure without its variables).
    - Closures stored by the instance are defunctionalised ([Callback]); the
      variables they capture live in the instance ([Round], [Timer]).
    - Functions supplied by the application ([UserFn]) are opaque: calling
      one is logged and yields its return value, it does not re-enter the
      instance.
    - The classes [Signature] and [SharedVar], the codec and the library
      [async] are outside the file: the first three are parameters
      ([SignatureAPI], [SharedVar], [Codec]), [async.eachLimit] is written
      out after the library.

    The file has three parts: the embedding, the properties of the
    embedding, and the properties at concrete inputs. *)

From Stdlib Require Import ZArith Lia String Ascii List Bool.
From Stdlib.Strings Require Byte.
From stdpp Require Import base option list gmap strings fin_maps pretty.

Set Warnings "-register-all".

Local Open Scope Z_scope.

(** ** Strings and numbers of the host language *)

Module JsString.

(** [String.prototype.lastIndexOf] for a one-character needle: the index
    of its last occurrence, [-1] when there is none. *)
Fixpoint lastIndexOf_from (c : ascii) (s : string) (i found : Z) : Z :=
  match s with
  | EmptyString => found
  | String a s' =>
      lastIndexOf_from c s' (i + 1) (if Ascii.eqb a c then i else found)
  end.

Definition lastIndexOf (s : string) (c : ascii) : Z :=
  lastIndexOf_from c s 0 (-1).

(** [String.prototype.substr(start, length)]: a negative [start] counts
    from the end, a missing [length] runs to the end, a negative one is
    taken as zero. *)
Definition substr (s : string) (start : Z) (len : option Z) : string :=
  let n := Z.of_nat (String.length s) in
  let st := if start <? 0 then Z.max (n + start) 0 else Z.min start n in
  let l :=
    match len with
    | None => n - st
    | Some l => Z.min (Z.max l 0) (n - st)
    end in
  String.substring (Z.to_nat st) (Z.to_nat l) s.

Definition is_space (c : ascii) : bool :=
  let n := nat_of_ascii c in
  ((9 <=? n) && (n <=? 13) || (n =? 32))%nat.

Definition digit_of (c : ascii) : option Z :=
  let n := Z.of_nat (nat_of_ascii c) in
  if (48 <=? n) && (n <=? 57) then Some (n - 48) else None.

Fixpoint skip_spaces (s : string) : string :=
  match s with
  | String c s' => if is_space c then skip_spaces s' else s
  | EmptyString => s
  end.

(** The longest prefix of decimal digits, as a number; [None] when the
    string does not start with a digit. *)
Fixpoint leading_digits (s : string) (acc : option Z) : option Z :=
  match s with
  | String c s' =>
      match digit_of c with
      | Some d => leading_digits s' (Some (10 * default 0 acc + d))
      | None => acc
      end
  | EmptyString => acc
  end.

End JsString.

(** A primitive value as it occurs in the fields of an endpoint record. *)
Inductive prim : Type :=
  | PUndef
  | PNum (n : Z)
  | PNaN
  | PStr (s : string).

(** [parseInt(s, 10)]: leading white space is skipped, a sign is accepted,
    the digits that follow are read up to the first other character; [NaN]
    when there is no digit.  (Exact for results below 2^53.) *)
Definition parseInt (s : string) : prim :=
  let s := JsString.skip_spaces s in
  let '(neg, body) :=
    match s with
    | String "-" r => (true, r)
    | String "+" r => (false, r)
    | _ => (false, s)
    end in
  match JsString.leading_digits body None with
  | Some n => PNum (if neg then - n else n)
  | None => PNaN
  end.

(** The operator [===] on primitives: [NaN] differs from itself. *)
Definition strict_eq (a b : prim) : bool :=
  match a, b with
  | PUndef, PUndef => true
  | PNum x, PNum y => x =? y
  | PStr x, PStr y => String.eqb x y
  | _, _ => false
  end.

(** Conversion to a string, as a template literal does it. *)
Definition prim_to_string (p : prim) : string :=
  match p with
  | PUndef => "undefined"
  | PNum n => pretty n
  | PNaN => "NaN"
  | PStr s => s
  end.

(** ** Endpoints *)

Record Rinfo : Type := { address : prim; port : prim }.

(** [rinfoEqual(a, b)]. *)
Definition rinfoEqual (a b : Rinfo) : bool :=
  strict_eq (address a) (address b) && strict_eq (port a) (port b).

(** What a caller may pass where the source reads [address]: a string or an
    endpoint record. *)
Inductive AddrArg : Type :=
  | AStr (s : string)
  | AObj (r : Rinfo).

(** ** Buffers and the external signature type *)

Definition Buffer : Type := list Byte.byte.

Definition hex_digit (n : N) : ascii :=
  ascii_of_N (if (n <? 10)%N then 48 + n else 87 + n)%N.

(** [buf.toString('hex')]. *)
Fixpoint hex (b : Buffer) : string :=
  match b with
  | [] => EmptyString
  | x :: b' =>
      let n := Byte.to_N x in
      String (hex_digit (n / 16)) (String (hex_digit (n mod 16)) (hex b'))
  end.

(** [a.equals(b)] on buffers. *)
Fixpoint buffer_equals (a b : Buffer) : bool :=
  match a, b with
  | [], [] => true
  | x :: a', y :: b' => Byte.eqb x y && buffer_equals a' b'
  | _, _ => false
  end.

(** The class [Signature] of [./Signature] is not part of the engine; the
    engine reads its [publicKey] and calls [verify()] and [betterThen()]. *)
Class SignatureAPI (Sig : Type) : Type := {
  sig_publicKey : Sig -> Buffer;
  sig_verify : Sig -> bool;
  sig_betterThen : Sig -> Sig -> bool;
}.

(** ** Constants *)

Definition MSG_TYPE_RESPONSE : Z := 0.
Definition MSG_TYPE_PING : Z := 1.
Definition MSG_TYPE_GET : Z := 2.
Definition MSG_TYPE_PUBLISH : Z := 3.
Definition MSG_TYPE_ERROR_UNKNOWN : Z := -1.

Definition RID_MAX : Z := 65535.
Definition PUBLIC_ASYNC_LIMIT : Z := 100.

(** ** The data model *)

Section Model.

Context {Sig : Type}.

(** Values that travel in messages and in the arguments of callbacks.
    [VError reason code] is the object [new Error(reason)] with its property
    [code] ([undefined] when none was assigned): an error is recorded by
    the value its constructor was given, whatever that value is; its
    [message], the string the constructor makes of that value, is not read
    anywhere in the source and is not computed here. *)
Inductive value : Type :=
  | VUndef
  | VNull
  | VBool (b : bool)
  | VNum (n : Z)
  | VNaN
  | VStr (s : string)
  | VBuf (b : Buffer)
  | VSig (s : Sig)
  | VArr (l : list value)
  | VError (reason code : value)
  | VRinfo (r : Rinfo).

(** Conversion to a boolean, as [if], [!] and [||] do it. *)
Definition truthy (v : value) : bool :=
  match v with
  | VUndef | VNull | VNaN => false
  | VBool b => b
  | VNum n => negb (n =? 0)
  | VStr s => negb (String.eqb s "")
  | _ => true
  end.

(** A function supplied by the application: an identity, under which its
    calls are logged, and the value it returns on given arguments. *)
Record UserFn : Type := { fn_id : nat; fn_ret : list value -> value }.

(** What a caller may pass where the source reads [port] (and, through the
    default [callback = port], the callback). *)
Inductive PortArg : Type :=
  | JUndef
  | JNum (n : Z)
  | JFn (f : UserFn).

(** [parseRinfo(address, port)] for a defined [address].
<<
  if (typeof address !== 'string') return address;
  if (typeof port === 'number') return { address, port };
  const i = address.lastIndexOf(':');
  return { address: parseInt(address.substr(i + 1), 10),
           port: address.substr(0, i) };
>> *)
Definition parseRinfo (address : AddrArg) (port : PortArg) : Rinfo :=
  match address with
  | AObj r => r
  | AStr a =>
      match port with
      | JNum p => {| address := PStr a; port := PNum p |}
      | _ =>
          let i := JsString.lastIndexOf a ":" in
          {| address := parseInt (JsString.substr a (i + 1) None);
             port := PStr (JsString.substr a 0 (Some i)) |}
      end
  end.

(** The class [SharedVar] of [./SharedVar], as far as [publish] reads it. *)
Record SharedVar : Type := { publicKey : Buffer; signature : Sig }.

(** Exceptions. *)
Inductive Exn : Type :=
  | TypeError (msg : string)
  | ReferenceError (msg : string)
  | Error (msg : string).

(** What leaves the instance. *)
Inductive Event : Type :=
  | SocketSend (data : list value) (to_port to_address : prim)
      (* this._socket.send(buf, 0, buf.length, port, address, callback)
         with buf the encoding of data *)
  | Call (f : nat) (args : list value).
      (* the application's function f is called on args *)

(** The closures that [_genRid] is given, by the place that builds them. *)
Inductive Callback : Type :=
  | CbConnect (rinfo : Rinfo) (callback : PortArg)   (* connect, l. 45-53 *)
  | CbLookup (round : nat) (peer : Rinfo)            (* lookup, l. 76-88 *)
  | CbPublish (round : nat)                          (* publish, l. 111-114 *)
  | CbUser (f : UserFn).                             (* a caller of _genRid *)

(** An entry of [_rids]: [{ rinfo, callback, timeout }]. *)
Record Pending : Type := {
  p_rinfo : Rinfo;
  p_callback : Callback;
  p_timeout : nat;
}.

(** The closure handed to [setTimeout] captures [rid] and [obj]. *)
Record Timer : Type := { t_rid : Z; t_callback : Callback }.

(** The handlers a request type can be mapped to. *)
Inductive Handler : Type :=
  | _pingHandler.

(** One run of [async.eachLimit]: the bookkeeping of the library
    ([items] not yet handed out, [running], [done], [looping], whether the
    final callback was called) and the variables the closures of [lookup]
    and [publish] share. *)
Inductive RoundKind : Type :=
  | LookupRound (key : string) (pk : Buffer)
  | PublishRound (sharedVar : SharedVar) (peers_length : Z).

Record Round : Type := {
  r_kind : RoundKind;
  r_callback : option UserFn;
  r_items : list Rinfo;
  r_running : Z;
  r_done : bool;
  r_looping : bool;
  r_called : bool;
  r_newPeers : list Rinfo;
  r_latest : option Sig;
  r_errors : Z;
}.

(** The instance, with the part of the event loop it owns: its timers and
    its runs of [async.eachLimit]; [clock] is what [Date.now()] reads. *)
Record Engine : Type := {
  _rids : gmap Z Pending;
  _nextRid : Z;
  _requestTypesMap : gmap Z Handler;
  _peers : list Rinfo;
  _peersMap : gmap string Rinfo;
  _peersVarsMap : gmap string (list Rinfo);
  _varsMap : gmap string SharedVar;
  _events : gmap string (list UserFn);
  timers : gmap nat Timer;
  next_timer : nat;
  rounds : gmap nat Round;
  next_round : nat;
  clock : Z;
}.

Definition set_rids (f : gmap Z Pending -> gmap Z Pending) (e : Engine) : Engine :=
  {| _rids := f (_rids e); _nextRid := _nextRid e;
     _requestTypesMap := _requestTypesMap e; _peers := _peers e;
     _peersMap := _peersMap e; _peersVarsMap := _peersVarsMap e;
     _varsMap := _varsMap e; _events := _events e; timers := timers e;
     next_timer := next_timer e; rounds := rounds e;
     next_round := next_round e; clock := clock e |}.

Definition set_nextRid (n : Z) (e : Engine) : Engine :=
  {| _rids := _rids e; _nextRid := n;
     _requestTypesMap := _requestTypesMap e; _peers := _peers e;
     _peersMap := _peersMap e; _peersVarsMap := _peersVarsMap e;
     _varsMap := _varsMap e; _events := _events e; timers := timers e;
     next_timer := next_timer e; rounds := rounds e;
     next_round := next_round e; clock := clock e |}.

Definition set_peersMap (f : gmap string Rinfo -> gmap string Rinfo) (e : Engine) : Engine :=
  {| _rids := _rids e; _nextRid := _nextRid e;
     _requestTypesMap := _requestTypesMap e; _peers := _peers e;
     _peersMap := f (_peersMap e); _peersVarsMap := _peersVarsMap e;
     _varsMap := _varsMap e; _events := _events e; timers := timers e;
     next_timer := next_timer e; rounds := rounds e;
     next_round := next_round e; clock := clock e |}.

Definition set_peersVarsMap
    (f : gmap string (list Rinfo) -> gmap string (list Rinfo)) (e : Engine) : Engine :=
  {| _rids := _rids e; _nextRid := _nextRid e;
     _requestTypesMap := _requestTypesMap e; _peers := _peers e;
     _peersMap := _peersMap e; _peersVarsMap := f (_peersVarsMap e);
     _varsMap := _varsMap e; _events := _events e; timers := timers e;
     next_timer := next_timer e; rounds := rounds e;
     next_round := next_round e; clock := clock e |}.

Definition set_varsMap
    (f : gmap string SharedVar -> gmap string SharedVar) (e : Engine) : Engine :=
  {| _rids := _rids e; _nextRid := _nextRid e;
     _requestTypesMap := _requestTypesMap e; _peers := _peers e;
     _peersMap := _peersMap e; _peersVarsMap := _peersVarsMap e;
     _varsMap := f (_varsMap e); _events := _events e; timers := timers e;
     next_timer := next_timer e; rounds := rounds e;
     next_round := next_round e; clock := clock e |}.

Definition set_events
    (f : gmap string (list UserFn) -> gmap string (list UserFn)) (e : Engine) : Engine :=
  {| _rids := _rids e; _nextRid := _nextRid e;
     _requestTypesMap := _requestTypesMap e; _peers := _peers e;
     _peersMap := _peersMap e; _peersVarsMap := _peersVarsMap e;
     _varsMap := _varsMap e; _events := f (_events e); timers := timers e;
     next_timer := next_timer e; rounds := rounds e;
     next_round := next_round e; clock := clock e |}.

Definition set_timers (f : gmap nat Timer -> gmap nat Timer) (n : nat) (e : Engine) : Engine :=
  {| _rids := _rids e; _nextRid := _nextRid e;
     _requestTypesMap := _requestTypesMap e; _peers := _peers e;
     _peersMap := _peersMap e; _peersVarsMap := _peersVarsMap e;
     _varsMap := _varsMap e; _events := _events e; timers := f (timers e);
     next_timer := n; rounds := rounds e;
     next_round := next_round e; clock := clock e |}.

Definition set_rounds (f : gmap nat Round -> gmap nat Round) (n : nat) (e : Engine) : Engine :=
  {| _rids := _rids e; _nextRid := _nextRid e;
     _requestTypesMap := _requestTypesMap e; _peers := _peers e;
     _peersMap := _peersMap e; _peersVarsMap := _peersVarsMap e;
     _varsMap := _varsMap e; _events := _events e; timers := timers e;
     next_timer := next_timer e; rounds := f (rounds e);
     next_round := n; clock := clock e |}.

Definition set_clock (now : Z) (e : Engine) : Engine :=
  {| _rids := _rids e; _nextRid := _nextRid e;
     _requestTypesMap := _requestTypesMap e; _peers := _peers e;
     _peersMap := _peersMap e; _peersVarsMap := _peersVarsMap e;
     _varsMap := _varsMap e; _events := _events e; timers := timers e;
     next_timer := next_timer e; rounds := rounds e;
     next_round := next_round e; clock := now |}.

(** ** The monad of methods *)

(** How a computation ends: with a value, with an exception, or with no
    result in the model (a loop out of fuel, a closure whose round is not
    in the store). *)
Inductive Res (A : Type) : Type :=
  | Ret (a : A)
  | Throw (x : Exn)
  | Stuck.
Arguments Ret {A} a.
Arguments Throw {A} x.
Arguments Stuck {A}.

Definition M (A : Type) : Type := Engine -> Engine * list Event * Res A.

Definition ret {A} (a : A) : M A := fun e => (e, [], Ret a).

Definition bind {A B} (m : M A) (k : A -> M B) : M B :=
  fun e =>
    match m e with
    | (e1, out1, Ret a) =>
        match k a e1 with
        | (e2, out2, r) => (e2, out1 ++ out2, r)
        end
    | (e1, out1, Throw x) => (e1, out1, Throw x)
    | (e1, out1, Stuck) => (e1, out1, Stuck)
    end.

Definition throw {A} (x : Exn) : M A := fun e => (e, [], Throw x).
Definition stuck {A} : M A := fun e => (e, [], Stuck).
Definition get : M Engine := fun e => (e, [], Ret e).
Definition modify (f : Engine -> Engine) : M unit := fun e => (f e, [], Ret tt).
Definition tell (ev : Event) : M unit := fun e => (e, [ev], Ret tt).

(** [try { m } catch (x) { h x }]. *)
Definition try_catch {A} (m : M A) (h : Exn -> M A) : M A :=
  fun e =>
    match m e with
    | (e1, out1, Throw x) =>
        match h x e1 with
        | (e2, out2, r) => (e2, out1 ++ out2, r)
        end
    | other => other
    end.

End Model.

Arguments value : clear implicits.
Arguments UserFn : clear implicits.
Arguments PortArg : clear implicits.
Arguments SharedVar : clear implicits.
Arguments Event : clear implicits.
Arguments Callback : clear implicits.
Arguments Pending : clear implicits.
Arguments Timer : clear implicits.
Arguments RoundKind : clear implicits.
Arguments Round : clear implicits.
Arguments Engine : clear implicits.
Arguments M : clear implicits.
Arguments Ret {A} a.
Arguments Throw {A} x.
Arguments Stuck {A}.

Declare Scope js_scope.
Delimit Scope js_scope with js.
Notation "x <- m ;; k" := (bind m (fun x => k))
  (at level 100, m at next level, right associativity) : js_scope.
Notation "m ;; k" := (bind m (fun _ => k))
  (at level 100, right associativity) : js_scope.

(** The decoder of the wire codec (msgpack5) is outside the engine: on a
    datagram it yields a value or throws. *)
Class Codec (Sig : Type) : Type := {
  parser_decode : Buffer -> option (value Sig);
}.

(** ** The methods *)

Section Methods.

Context {Sig : Type} {SigAPI : SignatureAPI Sig} {codec : Codec Sig}.

Local Open Scope js_scope.

Local Abbreviation value := (value Sig).
Local Abbreviation UserFn := (UserFn Sig).
Local Abbreviation PortArg := (PortArg Sig).
Local Abbreviation SharedVar := (SharedVar Sig).
Local Abbreviation Callback := (Callback Sig).
Local Abbreviation Pending := (Pending Sig).
Local Abbreviation Timer := (Timer Sig).
Local Abbreviation Round := (Round Sig).
Local Abbreviation RoundKind := (RoundKind Sig).
Local Abbreviation Engine := (Engine Sig).
Local Abbreviation M := (M Sig).

(** [constructor]: the instance at creation, with the start offset drawn
    for [_nextRid] and the time of the clock. *)
Definition constructor (start now : Z) : Engine :=
  {| _rids := ∅;
     _nextRid := start;
     _requestTypesMap := {[ MSG_TYPE_PING := _pingHandler ]};
     _peers := [];
     _peersMap := ∅;
     _peersVarsMap := ∅;
     _varsMap := ∅;
     _events := ∅;
     timers := ∅;
     next_timer := 0;
     rounds := ∅;
     next_round := 0;
     clock := now |}.

(** A call of a function of the application. *)
Definition call (f : UserFn) (args : list value) : M value :=
  tell (Call (fn_id f) args) ;;
  ret (fn_ret f args).

(** *** Socket and parser methods *)

(** [send(data, address, port, callback = port)].
<<
const buf = this._parser.encode(data);
const rinfo = parseRinfo(address, port);
this._socket.send(buf, 0, buf.length, rinfo.port, rinfo.address, callback);
>>
    When [address] is [undefined], [parseRinfo] returns it as it is and
    reading [rinfo.port] throws. *)
Definition send (data : list value) (address : option AddrArg) (port : PortArg)
    : M unit :=
  match address with
  | None =>
      throw (TypeError "Cannot read properties of undefined (reading 'port')")
  | Some a =>
      match parseRinfo a port with
      | Build_Rinfo to_address to_port =>
          tell (SocketSend data to_port to_address)
      end
  end.

(** [decode(...args)]: the parser is called and its result dropped; the
    method has no [return]. *)
Definition decode (buf : Buffer) : M value :=
  match parser_decode buf with
  | Some _ => ret VUndef
  | None => throw (Error "decode")
  end.

(** *** EventEmitter *)

Definition on (event : string) (listener : UserFn) : M unit :=
  modify (set_events (fun m => <[ event := default [] (m !! event) ++ [listener] ]> m)).

Fixpoint call_all (ls : list UserFn) (args : list value) : M unit :=
  match ls with
  | [] => ret tt
  | f :: ls' => call f args ;; call_all ls' args
  end.

Definition emit (event : string) (args : list value) : M bool :=
  e <- get ;;
  match _events e !! event with
  | None | Some [] => ret false
  | Some ls => call_all ls args ;; ret true
  end.

(** *** Peer registry *)

(** The key [`${rinfo.address}:${rinfo.port}`]. *)
Definition peer_key (rinfo : Rinfo) : string :=
  prim_to_string (address rinfo) +:+ ":" +:+ prim_to_string (port rinfo).

Definition _addPeer (rinfo : Rinfo) : M unit :=
  e <- get ;;
  let key := peer_key rinfo in
  match _peersMap e !! key with
  | Some _ => ret tt
  | None =>
      let peer := {| address := address rinfo; port := port rinfo |} in
      modify (set_peersMap <[ key := peer ]>)
  end.

Definition _removePeer (rinfo : Rinfo) : M unit :=
  e <- get ;;
  let key := peer_key rinfo in
  match _peersMap e !! key with
  | None => ret tt
  | Some _ => modify (set_peersMap (delete key))
  end.

(** *** Timers *)

Definition setTimeout (t : Timer) : M nat :=
  e <- get ;;
  let h := next_timer e in
  modify (set_timers <[ h := t ]> (S h)) ;;
  ret h.

Definition clearTimeout (h : nat) : M unit :=
  e <- get ;;
  modify (set_timers (delete h) (next_timer e)).

(** *** Request identifiers *)

(** The entries built by [_genRid] have the properties [rinfo],
    [callback] and [timeout]; reading [ttl] yields [undefined]. *)
Definition ttl (obj : Pending) : prim := PUndef.

(** [a > now] for a number [now]: [a] is converted to a number,
    [undefined] to [NaN], and no comparison with [NaN] holds.  (A string
    is read as a decimal integer, the empty string as [0].) *)
Definition js_gt (a : prim) (now : Z) : bool :=
  match a with
  | PNum n => now <? n
  | PStr s =>
      match JsString.skip_spaces s with
      | EmptyString => now <? 0
      | _ => match parseInt s with PNum n => now <? n | _ => false end
      end
  | PUndef | PNaN => false
  end.

(** [this._nextRid++] followed by the wrap-around. *)
Definition next_rid_postincr : M Z :=
  e <- get ;;
  let rid := _nextRid e in
  modify (set_nextRid (rid + 1)) ;;
  e' <- get ;;
  (if RID_MAX <? _nextRid e' then modify (set_nextRid 0) else ret tt) ;;
  ret rid.

(** The [while] loop of [_getNextRid]; [fuel] bounds its iterations. *)
Fixpoint _getNextRid_loop (fuel : nat) (start now rid : Z) : M Z :=
  e <- get ;;
  let live :=
    match _rids e !! rid with
    | Some obj => js_gt (ttl obj) now
    | None => false
    end in
  if live then
    match fuel with
    | O => stuck
    | S fuel' =>
        rid' <- next_rid_postincr ;;
        if rid' =? start then throw (Error "No new request ids left")
        else _getNextRid_loop fuel' start now rid'
    end
  else ret rid.

(** [_getNextRid()].
<<
const start = this._nextRid;
const now = Date.now();
let rid = this._nextRid++;
if (this._nextRid > RID_MAX) this._nextRid = 0;
while (this._rids[rid] && this._rids[rid].ttl > now) {
  rid = this._nextRid++;
  if (this._nextRid > RID_MAX) this._nextRid = 0;
  if (rid === start) throw new Error('No new request ids left');
}
return rid;
>> *)
Definition _getNextRid : M Z :=
  e <- get ;;
  let start := _nextRid e in
  let now := clock e in
  rid <- next_rid_postincr ;;
  _getNextRid_loop (Z.to_nat (RID_MAX + 2)) start now rid.

(** [_genRid(rinfo, callback)]. *)
Definition _genRid (rinfo : Rinfo) (callback : Callback) : M Z :=
  rid <- _getNextRid ;;
  h <- setTimeout {| t_rid := rid; t_callback := callback |} ;;
  modify (set_rids
    <[ rid := {| p_rinfo := rinfo; p_callback := callback; p_timeout := h |} ]>) ;;
  ret rid.

(** *** async.eachLimit

    The library is a dependency of the engine; a run of
    [async.eachLimit(coll, PUBLIC_ASYNC_LIMIT, iteratee, callback)] follows
    its [eachOfLimit]: [replenish] hands items to the iteratee while fewer
    than the limit are running, [iterateeCallback] is what each iteratee
    receives as its [callback], and the final callback runs at most once. *)

Definition get_round (id : nat) : M Round :=
  e <- get ;;
  match rounds e !! id with
  | Some r => ret r
  | None => stuck
  end.

Definition update_round (id : nat) (f : Round -> Round) : M unit :=
  e <- get ;;
  modify (set_rounds (alter f id) (next_round e)).

Definition set_items (l : list Rinfo) (r : Round) : Round :=
  {| r_kind := r_kind r; r_callback := r_callback r; r_items := l;
     r_running := r_running r; r_done := r_done r; r_looping := r_looping r;
     r_called := r_called r; r_newPeers := r_newPeers r;
     r_latest := r_latest r; r_errors := r_errors r |}.

Definition set_running (n : Z) (r : Round) : Round :=
  {| r_kind := r_kind r; r_callback := r_callback r; r_items := r_items r;
     r_running := n; r_done := r_done r; r_looping := r_looping r;
     r_called := r_called r; r_newPeers := r_newPeers r;
     r_latest := r_latest r; r_errors := r_errors r |}.

Definition set_done (b : bool) (r : Round) : Round :=
  {| r_kind := r_kind r; r_callback := r_callback r; r_items := r_items r;
     r_running := r_running r; r_done := b; r_looping := r_looping r;
     r_called := r_called r; r_newPeers := r_newPeers r;
     r_latest := r_latest r; r_errors := r_errors r |}.

Definition set_looping (b : bool) (r : Round) : Round :=
  {| r_kind := r_kind r; r_callback := r_callback r; r_items := r_items r;
     r_running := r_running r; r_done := r_done r; r_looping := b;
     r_called := r_called r; r_newPeers := r_newPeers r;
     r_latest := r_latest r; r_errors := r_errors r |}.

Definition set_called (b : bool) (r : Round) : Round :=
  {| r_kind := r_kind r; r_callback := r_callback r; r_items := r_items r;
     r_running := r_running r; r_done := r_done r; r_looping := r_looping r;
     r_called := b; r_newPeers := r_newPeers r;
     r_latest := r_latest r; r_errors := r_errors r |}.

Definition set_newPeers (l : list Rinfo) (r : Round) : Round :=
  {| r_kind := r_kind r; r_callback := r_callback r; r_items := r_items r;
     r_running := r_running r; r_done := r_done r; r_looping := r_looping r;
     r_called := r_called r; r_newPeers := l;
     r_latest := r_latest r; r_errors := r_errors r |}.

Definition set_latest (s : option Sig) (r : Round) : Round :=
  {| r_kind := r_kind r; r_callback := r_callback r; r_items := r_items r;
     r_running := r_running r; r_done := r_done r; r_looping := r_looping r;
     r_called := r_called r; r_newPeers := r_newPeers r;
     r_latest := s; r_errors := r_errors r |}.

Definition set_errors (n : Z) (r : Round) : Round :=
  {| r_kind := r_kind r; r_callback := r_callback r; r_items := r_items r;
     r_running := r_running r; r_done := r_done r; r_looping := r_looping r;
     r_called := r_called r; r_newPeers := r_newPeers r;
     r_latest := r_latest r; r_errors := n |}.

(** The final callbacks, under the library's [once].
    [lookup], l. 91-96:
<<
  this._peersVarsMap[key] = newPeers;
  if (!callback) return;
  callback(null, latest);
>>
    [publish], l. 117-121:
<<
  if (!callback) return;
  callback(null, peers.length - errors);
>> *)
Definition final (id : nat) : M unit :=
  r <- get_round id ;;
  if r_called r then ret tt
  else
    update_round id (set_called true) ;;
    match r_kind r with
    | LookupRound key _ =>
        modify (set_peersVarsMap <[ key := r_newPeers r ]>) ;;
        match r_callback r with
        | None => ret tt
        | Some f =>
            call f [VNull; match r_latest r with Some s => VSig s | None => VNull end] ;;
            ret tt
        end
    | PublishRound _ peers_length =>
        match r_callback r with
        | None => ret tt
        | Some f => call f [VNull; VNum (peers_length - r_errors r)] ;; ret tt
        end
    end.

(** The iteratees.
    [lookup], l. 75-90:
<<
  const rid = this._genRid(peer, (err, data) => { ... });
  this.send([MSG_TYPE_GET, rid, publicKey]);
>>
    [publish], l. 110-116:
<<
  const rid = this._genRid(peer, (err) => { ... });
  this.send([MSG_TYPE_PUBLISH, rid, sharedVar.signature]);
>>
    Neither passes a destination to [send]. *)
Definition iteratee (id : nat) (peer : Rinfo) : M unit :=
  r <- get_round id ;;
  match r_kind r with
  | LookupRound _ pk =>
      rid <- _genRid peer (CbLookup id peer) ;;
      send [VNum MSG_TYPE_GET; VNum rid; VBuf pk] None JUndef
  | PublishRound sharedVar _ =>
      rid <- _genRid peer (CbPublish id) ;;
      send [VNum MSG_TYPE_PUBLISH; VNum rid; VSig (signature sharedVar)] None JUndef
  end.

(** The body of the library's [replenish] loop, over the items left. *)
Fixpoint replenish_loop (items : list Rinfo) (id : nat) : M unit :=
  r <- get_round id ;;
  if (r_running r <? PUBLIC_ASYNC_LIMIT) && negb (r_done r) then
    match items with
    | [] =>
        update_round id (set_done true) ;;
        if r_running r <=? 0 then final id else ret tt
    | elem :: rest =>
        update_round id (fun r => set_running (r_running r + 1) (set_items rest r)) ;;
        iteratee id elem ;;
        replenish_loop rest id
    end
  else update_round id (set_looping false).

Definition replenish (id : nat) : M unit :=
  r <- get_round id ;;
  update_round id (set_looping true) ;;
  replenish_loop (r_items r) id.

(** [iterateeCallback], called as [callback()]: no error, no value. *)
Definition iterateeCallback (id : nat) : M unit :=
  update_round id (fun r => set_running (r_running r - 1) r) ;;
  r <- get_round id ;;
  if r_done r && (r_running r <=? 0) then
    update_round id (set_done true) ;;
    final id
  else if negb (r_looping r) then replenish id
  else ret tt.

Definition eachLimit (kind : RoundKind) (coll : list Rinfo)
    (callback : option UserFn) (latest : option Sig) : M unit :=
  e <- get ;;
  let id := next_round e in
  modify (set_rounds
    <[ id := {| r_kind := kind; r_callback := callback; r_items := coll;
                r_running := 0; r_done := false; r_looping := false;
                r_called := false; r_newPeers := []; r_latest := latest;
                r_errors := 0 |} ]> (S id)) ;;
  replenish id.

(** *** The closures given to [_genRid] *)

Definition arg (n : nat) (args : list value) : value := nth n args VUndef.

(** [!data.length]: reading [length] of [undefined] or [null] throws; an
    array, a string and a buffer have a length, other values have none. *)
Definition no_length (data : value) : M bool :=
  match data with
  | VUndef | VNull =>
      throw (TypeError "Cannot read properties of undefined (reading 'length')")
  | VArr l => ret (bool_decide (l = []))
  | VStr s => ret (String.eqb s "")
  | VBuf b => ret (bool_decide (b = []))
  | _ => ret true
  end.

(** [data[0]] when it is an instance of [Signature]. *)
Definition first_signature (data : value) : option Sig :=
  match data with
  | VArr (VSig s :: _) => Some s
  | _ => None
  end.

(** The closure of [connect], l. 45-53:
<<
  if (err) { this._removePeer(rinfo); } else { this._addPeer(rinfo); }
  if (callback) callback.call(this, null, data, rinfo);
>> *)
Definition connect_callback (rinfo : Rinfo) (callback : PortArg)
    (err data : value) : M value :=
  (if truthy err then _removePeer rinfo else _addPeer rinfo) ;;
  match callback with
  | JUndef => ret VUndef
  | JNum n =>
      if n =? 0 then ret VUndef
      else throw (TypeError "callback.call is not a function")
  | JFn f => call f [VNull; data; VRinfo rinfo] ;; ret VUndef
  end.

(** The closure of [lookup], l. 76-88:
<<
  if (err || !data.length) return callback();
  const sig = data[0];
  if (!(sig instanceof Signature) || !sig.publicKey.equals(publicKey)
      || !sig.verify()) return callback();
  if (!latest || sig.betterThen(latest)) { latest = sig; }
  newPeers.push(peer);
  callback();
>> *)
Definition lookup_callback (id : nat) (peer : Rinfo) (err data : value) : M value :=
  r <- get_round id ;;
  match r_kind r with
  | PublishRound _ _ => stuck
  | LookupRound _ pk =>
      skip <- (if truthy err then ret true else no_length data) ;;
      if (skip : bool) then iterateeCallback id ;; ret VUndef
      else
        match first_signature data with
        | None => iterateeCallback id ;; ret VUndef
        | Some sig =>
            if negb (buffer_equals (sig_publicKey sig) pk) || negb (sig_verify sig)
            then iterateeCallback id ;; ret VUndef
            else
              (match r_latest r with
               | None => update_round id (set_latest (Some sig))
               | Some latest =>
                   if sig_betterThen sig latest
                   then update_round id (set_latest (Some sig))
                   else ret tt
               end) ;;
              update_round id (fun r => set_newPeers (r_newPeers r ++ [peer]) r) ;;
              iterateeCallback id ;;
              ret VUndef
        end
  end.

(** The closure of [publish], l. 111-114:
<<
  if (err) errors++;
  callback();
>> *)
Definition publish_callback (id : nat) (err : value) : M value :=
  (if truthy err then update_round id (fun r => set_errors (r_errors r + 1) r)
   else ret tt) ;;
  iterateeCallback id ;;
  ret VUndef.

(** A call [obj.callback(...args)]. *)
Definition run_callback (cb : Callback) (args : list value) : M value :=
  match cb with
  | CbConnect rinfo callback => connect_callback rinfo callback (arg 0 args) (arg 1 args)
  | CbLookup id peer => lookup_callback id peer (arg 0 args) (arg 1 args)
  | CbPublish id => publish_callback id (arg 0 args)
  | CbUser f => call f args
  end.

(** The timer set by [_genRid] goes off:
<<
  delete this._rids[rid];
  obj.callback(new Error('TIMEOUT'));
>> *)
Definition fire_timer (h : nat) : M unit :=
  e <- get ;;
  match timers e !! h with
  | None => ret tt
  | Some t =>
      modify (set_timers (delete h) (next_timer e)) ;;
      modify (set_rids (delete (t_rid t))) ;;
      run_callback (t_callback t) [VError (VStr "TIMEOUT") VUndef] ;;
      ret tt
  end.

(** [_getRidCallback(rid, rinfo)]: the entry whose closure is returned,
    [None] for [undefined].
<<
  if (!this._rids[rid]) return;
  const obj = this._rids[rid];
  if (!rinfoEqual(obj.rinfo, rinfo)) return;
  return (err, data, rinfo2) => { ... };
>> *)
Definition _getRidCallback (rid : value) (rinfo : Rinfo) : M (option (Z * Pending)) :=
  e <- get ;;
  match rid with
  | VNum n =>
      match _rids e !! n with
      | None => ret None
      | Some obj =>
          if rinfoEqual (p_rinfo obj) rinfo then ret (Some (n, obj)) else ret None
      end
  | _ => ret None
  end.

(** The closure [_getRidCallback] returns:
<<
  if (obj.callback.call(this, err, data, rinfo2) === true && !err) return;
  clearTimeout(obj.timeout);
  delete this._rids[rid];
>> *)
Definition rid_callback (rid : Z) (obj : Pending) (err data : value) (rinfo2 : Rinfo)
    : M unit :=
  r <- run_callback (p_callback obj) [err; data; VRinfo rinfo2] ;;
  if match r with VBool true => negb (truthy err) | _ => false end then ret tt
  else
    clearTimeout (p_timeout obj) ;;
    modify (set_rids (delete rid)).

(** *** The dispatcher *)

Definition _handleResponse (data : list value) (rid : value) (rinfo : Rinfo) : M unit :=
  cb <- _getRidCallback rid rinfo ;;
  match cb with
  | None => ret tt
  | Some (n, obj) => rid_callback n obj VNull (VArr data) rinfo
  end.

(** [_handleErrorResponse(data, code, rid, rinfo)]:
<<
  const err = new Error(data.shift() || (`error code: ${code}`));
  err.code = code;
  callback(err, data, rinfo);
>>
    [response_error] is the object [err]: [new Error] applied to the first
    element of the payload when that is truthy and to the text
    ["error code: <code>"] otherwise, with [code] assigned. *)
Definition response_error (data : list value) (code : Z) : value :=
  let first := hd VUndef data in
  let reason :=
    if truthy first then first else VStr ("error code: " +:+ pretty code) in
  VError reason (VNum code).

Definition _handleErrorResponse (data : list value) (code : Z) (rid : value)
    (rinfo : Rinfo) : M unit :=
  cb <- _getRidCallback rid rinfo ;;
  match cb with
  | None => ret tt
  | Some (n, obj) =>
      rid_callback n obj (response_error data code) (VArr (tl data)) rinfo
  end.

Definition run_handler (h : Handler) (data : list value) (rid : value) (rinfo : Rinfo)
    : M unit :=
  match h with
  | _pingHandler => send [VNum MSG_TYPE_RESPONSE; rid] (Some (AObj rinfo)) JUndef
  end.

(** [_handleRequest(data, type, rid, rinfo)]. *)
Definition _handleRequest (data : list value) (type : Z) (rid : value) (rinfo : Rinfo)
    : M unit :=
  e <- get ;;
  match _requestTypesMap e !! type with
  | None =>
      send [VNum MSG_TYPE_ERROR_UNKNOWN; rid; VStr "Unknown request type"]
           (Some (AObj rinfo)) JUndef
  | Some handler => run_handler handler data rid rinfo
  end.

Definition is_number (v : value) : bool :=
  match v with
  | VNum _ | VNaN => true
  | _ => false
  end.

(** [_handleMessage(data, rinfo)]. *)
Definition _handleMessage (data : value) (rinfo : Rinfo) : M unit :=
  match data with
  | VArr (type :: rid :: data) =>
      if is_number type && is_number rid then
        match type with
        | VNum t =>
            if t =? MSG_TYPE_RESPONSE then _handleResponse data rid rinfo
            else if t >? MSG_TYPE_RESPONSE then _handleRequest data t rid rinfo
            else if t <? MSG_TYPE_RESPONSE then _handleErrorResponse data t rid rinfo
            else ret tt
        | _ => ret tt
        end
      else ret tt
  | _ => ret tt
  end.

(** The names bound where the listener of the socket's ['message'] event
    is written: its own parameters and variable, the parameter of
    [_initSocket], the declarations of the module, the names Node.js gives a
    module, and the globals the file uses. *)
Definition message_listener_scope : list string :=
  ["buf"; "rinfo"; "data"; "socket";
   "EventEmitter"; "dgram"; "async"; "MsgPack"; "SharedVar"; "Signature";
   "MSG_TYPE_RESPONSE"; "MSG_TYPE_PING"; "MSG_TYPE_GET"; "MSG_TYPE_PUBLISH";
   "MSG_TYPE_ERROR_UNKNOWN"; "RID_MAX"; "RID_TIMEOUT"; "BUFFER_ENCODING";
   "PUBLIC_ASYNC_LIMIT"; "SharedVars"; "parseRinfo"; "rinfoEqual";
   "require"; "module"; "exports"; "__filename"; "__dirname";
   "Math"; "Date"; "Error"; "Array"; "parseInt"; "setTimeout"; "clearTimeout"].

Definition in_scope (x : string) : bool :=
  existsb (String.eqb x) message_listener_scope.

(** [self.decode(buf)] in the listener: the identifier [self] is resolved
    first; were it bound, the instance's [decode] would run. *)
Definition self_decode (buf : Buffer) : M value :=
  if in_scope "self" then decode buf
  else throw (ReferenceError "self is not defined").

(** The listener of the socket's ['message'] event, l. 261-272:
<<
  let data;
  try { data = self.decode(buf); } catch (err) { return; }
  this.emit('message', data, rinfo);
  this._handleMessage(data, rinfo);
>> *)
Definition on_message (buf : Buffer) (rinfo : Rinfo) : M unit :=
  decoded <- try_catch (data <- self_decode buf ;; ret (Some data))
                       (fun _ => ret None) ;;
  match decoded with
  | None => ret tt
  | Some data =>
      emit "message" [data; VRinfo rinfo] ;;
      _handleMessage data rinfo
  end.

(** *** Protocol methods *)

(** [connect(address, port, callback = port)]. *)
Definition connect (address : AddrArg) (port : PortArg) (callback : option UserFn)
    : M unit :=
  let callback := match callback with Some f => JFn f | None => port end in
  let rinfo := parseRinfo address port in
  rid <- _genRid rinfo (CbConnect rinfo callback) ;;
  send [VNum MSG_TYPE_PING; VNum rid] (Some (AObj rinfo)) JUndef.

(** [lookup(publicKey, currentSig, callback)]. *)
Definition lookup (publicKey : Buffer) (currentSig : option Sig)
    (callback : option UserFn) : M unit :=
  let key := hex publicKey in
  e <- get ;;
  let peers :=
    match _peersVarsMap e !! key with
    | Some peers => peers
    | None => _peers e
    end in
  eachLimit (LookupRound key publicKey) peers callback currentSig.

(** [publish(sharedVar, callback)]. *)
Definition publish (sharedVar : SharedVar) (callback : option UserFn) : M unit :=
  let key := hex (publicKey sharedVar) in
  modify (set_varsMap <[ key := sharedVar ]>) ;;
  e <- get ;;
  match _peersVarsMap e !! key with
  | None => ret tt
  | Some peers =>
      eachLimit (PublishRound sharedVar (Z.of_nat (length peers))) peers callback None
  end.

(** [onPublish(publicKey, listener)]. *)
Definition onPublish (publicKey : Buffer) (listener : UserFn) : M unit :=
  let event := hex publicKey in
  on event listener.

End Methods.

(** [n] calls of [_genRid] in a row, with nothing resolved in between; the
    identifiers are returned in the order of the calls. *)
Fixpoint allocate {Sig : Type} (n : nat) (rinfo : Rinfo) (callback : Callback Sig)
    : M Sig (list Z) :=
  match n with
  | O => ret []
  | S n' =>
      (rid <- _genRid rinfo callback ;;
       rids <- allocate n' rinfo callback ;;
       ret (rid :: rids))%js
  end.

(** The successor of an identifier in [_getNextRid]: one more, and back to
    zero past [RID_MAX]. *)
Definition wrap (n : Z) : Z := if RID_MAX <? n + 1 then 0 else n + 1.

(** The identifiers [n] successive increments yield from [s]. *)
Fixpoint rid_seq (n : nat) (s : Z) : list Z :=
  match n with
  | O => []
  | S n' => s :: rid_seq n' (wrap s)
  end.

(** The instance after [_genRid(rinfo, callback)] returned [_nextRid]. *)
Definition after_genRid {Sig : Type} (rinfo : Rinfo) (callback : Callback Sig)
    (e : Engine Sig) : Engine Sig :=
  let rid := _nextRid e in
  let h := next_timer e in
  set_rids
    <[ rid := {| p_rinfo := rinfo; p_callback := callback; p_timeout := h |} ]>
    (set_timers <[ h := {| t_rid := rid; t_callback := callback |} ]> (S h)
       (set_nextRid (wrap rid) e)).

(** ** Vocabulary of the statements *)

(** Two instances hold the same pending requests and the same timers. *)
Definition same_requests {Sig : Type} (e e' : Engine Sig) : Prop :=
  _rids e' = _rids e /\ timers e' = timers e.

(** A computation that, when it returns, has left the pending requests and
    the timers as they were. *)
Definition keeps_requests {Sig A : Type} (m : M Sig A) : Prop :=
  forall e e' out a, m e = (e', out, Ret a) -> same_requests e e'.

(** A computation that never returns: it throws or has no result. *)
Definition never_returns {Sig A : Type} (m : M Sig A) : Prop :=
  forall e e' out a, m e <> (e', out, Ret a).

(** The return value [true], which keeps a request alive. *)
Definition is_continue {Sig : Type} (v : value Sig) : bool :=
  match v with
  | VBool true => true
  | _ => false
  end.

(** The request [rid] is gone from [e]: no entry, its timer [h] cleared,
    and every later response or error response for [rid], from any origin,
    leaves the instance as it is and lets nothing out. *)
Definition request_removed {Sig : Type} {SigAPI : SignatureAPI Sig}
    (rid : Z) (h : nat) (e : Engine Sig) : Prop :=
  _rids e !! rid = None
  /\ timers e !! h = None
  /\ forall (t : Z) (payload : list (value Sig)) (origin : Rinfo),
       t <= 0 ->
       _handleMessage (VArr (VNum t :: VNum rid :: payload)) origin e
       = (e, [], Ret tt).

(** ** Driving an instance *)

(** What the application and the event loop do to an instance: the
    protocol methods, [_genRid] and [_handleMessage] called from outside,
    a datagram delivered by the socket, a timer going off, the clock moving
    on. *)
Inductive Action (Sig : Type) : Type :=
  | DoConnect (address : AddrArg) (port : PortArg Sig) (callback : option (UserFn Sig))
  | DoLookup (pk : Buffer) (currentSig : option Sig) (callback : option (UserFn Sig))
  | DoPublish (sharedVar : SharedVar Sig) (callback : option (UserFn Sig))
  | DoOnPublish (pk : Buffer) (listener : UserFn Sig)
  | DoGenRid (rinfo : Rinfo) (callback : UserFn Sig)
  | DoHandleMessage (data : value Sig) (rinfo : Rinfo)
  | Datagram (buf : Buffer) (rinfo : Rinfo)
  | TimerFires (h : nat)
  | TimePasses (now : Z).
Arguments DoConnect {Sig} _ _ _.
Arguments DoLookup {Sig} _ _ _.
Arguments DoPublish {Sig} _ _.
Arguments DoOnPublish {Sig} _ _.
Arguments DoGenRid {Sig} _ _.
Arguments DoHandleMessage {Sig} _ _.
Arguments Datagram {Sig} _ _.
Arguments TimerFires {Sig} _.
Arguments TimePasses {Sig} _.

Definition perform {Sig : Type} {SigAPI : SignatureAPI Sig} {codec : Codec Sig}
    (a : Action Sig) : M Sig unit :=
  match a with
  | DoConnect address port callback => connect address port callback
  | DoLookup pk currentSig callback => lookup pk currentSig callback
  | DoPublish sharedVar callback => publish sharedVar callback
  | DoOnPublish pk listener => onPublish pk listener
  | DoGenRid rinfo callback => bind (_genRid rinfo (CbUser callback)) (fun _ => ret tt)
  | DoHandleMessage data rinfo => _handleMessage data rinfo
  | Datagram buf rinfo => on_message buf rinfo
  | TimerFires h => fire_timer h
  | TimePasses now => modify (set_clock now)
  end.

(** The instances that arise from a new one; an action that throws leaves
    the instance as it was when the exception left the method. *)
Inductive reachable {Sig : Type} {SigAPI : SignatureAPI Sig} {codec : Codec Sig}
    : Engine Sig -> Prop :=
  | reachable_new (start now : Z) : reachable (constructor start now)
  | reachable_step (e e' : Engine Sig) (a : Action Sig)
      (out : list (Event Sig)) (r : Res unit) :
      reachable e -> perform a e = (e', out, r) -> reachable e'.

(** A run of [async.eachLimit] from which nothing more can come: it is
    inside [replenish], and it has called its final callback or is not
    done. *)
Definition settled {Sig : Type} (r : Round Sig) : Prop :=
  r_looping r = true /\ (r_called r = true \/ r_done r = false).

(** What holds of an instance however it is driven: the registry of
    request handlers is the one the constructor built, and no peer is ever a
    candidate ([_peers] is empty, every set recorded for a key is empty,
    every run of [async.eachLimit] is settled). *)
Definition invariant {Sig : Type} (e : Engine Sig) : Prop :=
  _requestTypesMap e = {[ MSG_TYPE_PING := _pingHandler ]}
  /\ _peers e = []
  /\ map_Forall (fun _ peers => peers = []) (_peersVarsMap e)
  /\ map_Forall (fun _ r => settled r) (rounds e).

(** A computation that maintains [invariant], however it ends. *)
Definition steady {Sig A : Type} (m : M Sig A) : Prop :=
  forall e e' out r, invariant e -> m e = (e', out, r) -> invariant e'.

(** A computation that maintains [I], however it ends. *)
Definition maintains {Sig A : Type} (I : Engine Sig -> Prop) (m : M Sig A) : Prop :=
  forall e e' out r, I e -> m e = (e', out, r) -> I e'.

(** Every pending request has its timer: the timer recorded in the entry is
    set, and its closure holds the entry's identifier and callback; the
    handles in use lie below the next one. *)
Definition timers_armed {Sig : Type} (e : Engine Sig) : Prop :=
  (forall rid obj,
      _rids e !! rid = Some obj ->
      timers e !! p_timeout obj
      = Some {| t_rid := rid; t_callback := p_callback obj |})
  /\ (forall h t, timers e !! h = Some t -> (h < next_timer e)%nat).

(** ** A signature scheme and a codec to run the engine on

    A signature carries its key, a version and whether it verifies; a
    signature is better than another when its version is higher.  The codec
    reads a datagram of at least two bytes as the message of its first two
    bytes. *)

Record TestSig : Type := { ts_key : Buffer; ts_version : Z; ts_valid : bool }.

#[export] Instance TestSig_api : SignatureAPI TestSig := {|
  sig_publicKey := ts_key;
  sig_verify := ts_valid;
  sig_betterThen := fun a b => ts_version b <? ts_version a;
|}.

#[export] Instance TestSig_codec : Codec TestSig := {|
  parser_decode := fun buf =>
    match buf with
    | t :: r :: _ =>
        Some (VArr [VNum (Z.of_N (Byte.to_N t)); VNum (Z.of_N (Byte.to_N r))])
    | _ => None
    end;
|}.

(** An endpoint, a second one, a key with a signed value for it, and
    functions of the application that return a fixed value. *)
Definition peerA : Rinfo := {| address := PStr "10.0.0.1"; port := PNum 4000 |}.
Definition peerB : Rinfo := {| address := PStr "10.0.0.2"; port := PNum 4000 |}.

Definition key1 : Buffer := [Byte.x0a; Byte.xff].

Definition var1 : SharedVar TestSig :=
  {| publicKey := key1;
     signature := {| ts_key := key1; ts_version := 1; ts_valid := true |} |}.

Definition constant_fn (id : nat) (v : value TestSig) : UserFn TestSig :=
  {| fn_id := id; fn_ret := fun _ => v |}.

(** A fresh instance, and the same with one request pending for [peerA]
    whose callback asks to go on. *)
Definition fresh : Engine TestSig := constructor 0 0.

Definition streaming : Pending TestSig :=
  {| p_rinfo := peerA;
     p_callback := CbUser (constant_fn 1 (VBool true));
     p_timeout := 0 |}.

Definition one_pending : Engine TestSig :=
  after_genRid peerA (CbUser (constant_fn 1 (VBool true))) fresh.

(** The endpoint that [parseRinfo] yields for a host name without a port,
    and an instance with one request pending for it. *)
Definition unnamed : Rinfo := {| address := PNaN; port := PStr "" |}.

Definition unanswerable : Pending TestSig :=
  {| p_rinfo := unnamed;
     p_callback := CbUser (constant_fn 1 VUndef);
     p_timeout := 0 |}.

Definition one_unanswerable : Engine TestSig :=
  after_genRid unnamed (CbUser (constant_fn 1 VUndef)) fresh.

(** A second key, and a second signature for [key1]. *)
Definition key2 : Buffer := [Byte.x0b].





(** * Properties *)

Section Properties.

Context {Sig : Type} {SigAPI : SignatureAPI Sig} {codec : Codec Sig}.

Local Open Scope js_scope.

Local Abbreviation value := (value Sig).
Local Abbreviation UserFn := (UserFn Sig).
Local Abbreviation Callback := (Callback Sig).
Local Abbreviation Pending := (Pending Sig).
Local Abbreviation Engine := (Engine Sig).
Local Abbreviation M := (M Sig).

(** ** Request identifiers *)

Lemma next_rid_postincr_eq (e : Engine) :
  next_rid_postincr e = (set_nextRid (wrap (_nextRid e)) e, [], Ret (_nextRid e)).
Proof.
  unfold next_rid_postincr, wrap, bind, get, modify, ret. cbn.
  destruct (RID_MAX <? _nextRid e + 1); reflexivity.
Qed.

(** The guard of the loop never holds: the loop returns the identifier it is
    entered with, whatever the table holds and whatever the fuel. *)
Lemma _getNextRid_loop_eq (fuel : nat) (start now rid : Z) (e : Engine) :
  _getNextRid_loop fuel start now rid e = (e, [], Ret rid).
Proof.
  destruct fuel; unfold _getNextRid_loop, bind, get; cbn;
    destruct (_rids e !! rid); reflexivity.
Qed.

Lemma _getNextRid_eq (e : Engine) :
  _getNextRid e = (set_nextRid (wrap (_nextRid e)) e, [], Ret (_nextRid e)).
Proof.
  unfold _getNextRid, bind, get. cbv beta iota zeta.
  rewrite next_rid_postincr_eq, _getNextRid_loop_eq. reflexivity.
Qed.

Lemma _genRid_eq (rinfo : Rinfo) (cb : Callback) (e : Engine) :
  _genRid rinfo cb e = (after_genRid rinfo cb e, [], Ret (_nextRid e)).
Proof.
  unfold _genRid, bind. rewrite _getNextRid_eq. reflexivity.
Qed.

Lemma wrap_mod (s : Z) :
  0 <= s <= RID_MAX -> wrap s = (s + 1) mod (RID_MAX + 1).
Proof.
  unfold wrap, RID_MAX. intros Hs.
  destruct (65535 <? s + 1) eqn:E.
  - apply Z.ltb_lt in E. assert (s = 65535) as -> by lia. reflexivity.
  - apply Z.ltb_ge in E. rewrite Z.mod_small; lia.
Qed.

Lemma wrap_range (s : Z) : 0 <= s <= RID_MAX -> 0 <= wrap s <= RID_MAX.
Proof.
  unfold wrap, RID_MAX. intros Hs. destruct (65535 <? s + 1) eqn:E; [lia|].
  apply Z.ltb_ge in E. lia.
Qed.

Lemma rid_seq_lookup (n : nat) : forall (s : Z) (i : nat),
  0 <= s <= RID_MAX -> (i < n)%nat ->
  rid_seq n s !! i = Some ((s + Z.of_nat i) mod (RID_MAX + 1)).
Proof.
  induction n as [|n IH]; intros s i Hs Hi; [lia|].
  destruct i as [|i]; cbn [rid_seq].
  - rewrite Z.add_0_r, Z.mod_small by (unfold RID_MAX in *; lia). reflexivity.
  - change ((s :: rid_seq n (wrap s)) !! S i) with (rid_seq n (wrap s) !! i).
    rewrite IH by (auto using wrap_range; lia).
    f_equal. rewrite wrap_mod by assumption.
    rewrite Zplus_mod_idemp_l. f_equal. lia.
Qed.

Lemma iter_wrap (n : nat) : forall s : Z,
  0 <= s <= RID_MAX -> Nat.iter n wrap s = (s + Z.of_nat n) mod (RID_MAX + 1).
Proof.
  induction n as [|n IH]; intros s Hs.
  - change (Nat.iter 0 wrap s) with s.
    rewrite Z.add_0_r, Z.mod_small by (unfold RID_MAX in *; lia). reflexivity.
  - change (Nat.iter (S n) wrap s) with (wrap (Nat.iter n wrap s)).
    rewrite IH by assumption.
    rewrite wrap_mod
      by (pose proof (Z.mod_pos_bound (s + Z.of_nat n) (RID_MAX + 1));
          unfold RID_MAX in *; lia).
    rewrite Zplus_mod_idemp_l. f_equal. lia.
Qed.

Lemma rid_seq_full (s k : Z) :
  0 <= s <= RID_MAX -> 0 <= k <= RID_MAX ->
  In k (rid_seq (Z.to_nat (RID_MAX + 1)) s).
Proof.
  intros Hs Hk.
  assert (0 <= (k - s) mod (RID_MAX + 1) < RID_MAX + 1) as Hi
    by (apply Z.mod_pos_bound; unfold RID_MAX; lia).
  apply list_elem_of_In, list_elem_of_lookup.
  exists (Z.to_nat ((k - s) mod (RID_MAX + 1))).
  rewrite rid_seq_lookup by (auto; lia).
  f_equal. rewrite Z2Nat.id by lia.
  rewrite Zplus_mod_idemp_r.
  replace (s + (k - s)) with k by lia.
  apply Z.mod_small. unfold RID_MAX in *. lia.
Qed.

(** What [n] allocations in a row do: none throws, the identifiers are the
    successive values of [_nextRid], and every one of them is live at the
    end. *)
Lemma allocate_eq (rinfo : Rinfo) (cb : Callback) (n : nat) : forall e : Engine,
  exists e',
    allocate n rinfo cb e = (e', [], Ret (rid_seq n (_nextRid e)))
    /\ _nextRid e' = Nat.iter n wrap (_nextRid e)
    /\ (forall k, is_Some (_rids e !! k) -> is_Some (_rids e' !! k))
    /\ (forall k, In k (rid_seq n (_nextRid e)) -> is_Some (_rids e' !! k)).
Proof.
  induction n as [|n IH]; intros e.
  - exists e. cbn. repeat split; auto. intros k [].
  - destruct (IH (after_genRid rinfo cb e)) as (e' & Hrun & Hnext & Hmono & Hlive).
    exists e'. cbn [allocate rid_seq]. unfold bind at 1. rewrite _genRid_eq.
    unfold bind at 1. rewrite Hrun. cbn in Hnext, Hmono, Hlive |- *.
    split; [reflexivity|]. split.
    { rewrite Hnext. symmetry. exact (Nat.iter_succ_r n wrap (_nextRid e)). }
    split.
    + intros k Hk. apply Hmono.
      destruct (decide (_nextRid e = k)) as [->|Hne].
      * rewrite lookup_insert_eq. eauto.
      * rewrite lookup_insert_ne by assumption. exact Hk.
    + intros k [<-|Hk]; [|auto].
      apply Hmono. rewrite lookup_insert_eq. eauto.
Qed.

(** C1 (code at the failing input).  From any instance whose [_nextRid] is
    an integer of the identifier space (a fresh instance with such a start
    offset, every instance after its first wrap-around), [RID_MAX + 1]
    allocations in a row succeed and leave every identifier of
    [0 .. RID_MAX] live; the next allocation does not fail: it returns the
    identifier that the first of them returned and that is still live. *)
Theorem getNextRid_returns_live_identifier
    (e0 : Engine) (rinfo : Rinfo) (cb : Callback) :
  0 <= _nextRid e0 <= RID_MAX ->
  exists (e e' : Engine) (ids : list Z),
    allocate (Z.to_nat (RID_MAX + 1)) rinfo cb e0 = (e, [], Ret ids)
    /\ (forall k, 0 <= k <= RID_MAX -> is_Some (_rids e !! k))
    /\ head ids = Some (_nextRid e0)
    /\ _genRid rinfo cb e = (e', [], Ret (_nextRid e0)).
Proof.
  intros Hs.
  destruct (allocate_eq rinfo cb (Z.to_nat (RID_MAX + 1)) e0)
    as (e & Hrun & Hnext & _ & Hlive).
  exists e, (after_genRid rinfo cb e), (rid_seq (Z.to_nat (RID_MAX + 1)) (_nextRid e0)).
  split; [exact Hrun|]. split; [|split].
  - intros k Hk. apply Hlive, rid_seq_full; assumption.
  - change (Z.to_nat (RID_MAX + 1)) with (S (Z.to_nat RID_MAX)). reflexivity.
  - rewrite _genRid_eq. do 2 f_equal. rewrite Hnext, iter_wrap by assumption.
    rewrite Z2Nat.id by (unfold RID_MAX; lia).
    rewrite <- Zplus_mod_idemp_r, Z_mod_same_full, Z.add_0_r.
    apply Z.mod_small. unfold RID_MAX in *. lia.
Qed.

(** ** The address parser *)

Lemma lastIndexOf_from_cases (c : ascii) (p : string) : forall i f : Z,
  (forall i' f', JsString.lastIndexOf_from c p i' f' = f')
  \/ i <= JsString.lastIndexOf_from c p i f.
Proof.
  induction p as [|a p IH]; intros i f; cbn [JsString.lastIndexOf_from].
  - left. reflexivity.
  - destruct (Ascii.eqb a c).
    + right. destruct (IH (i + 1) i) as [H|H]; [rewrite H|]; lia.
    + destruct (IH (i + 1) f) as [H|H]; [left; intros; apply H | right; lia].
Qed.

Lemma lastIndexOf_absent (c : ascii) (p : string) :
  JsString.lastIndexOf p c = -1 ->
  forall i f, JsString.lastIndexOf_from c p i f = f.
Proof.
  unfold JsString.lastIndexOf. intros H.
  destruct (lastIndexOf_from_cases c p 0 (-1)) as [Hall|Hge]; [exact Hall | lia].
Qed.

Lemma append_nil (t : string) : "" +:+ t = t.
Proof. reflexivity. Qed.

Lemma append_cons (a : ascii) (s t : string) :
  String a s +:+ t = String a (s +:+ t).
Proof. reflexivity. Qed.

Lemma lastIndexOf_from_app (c : ascii) (p : string) :
  (forall i f, JsString.lastIndexOf_from c p i f = f) ->
  forall (s : string) (i f : Z),
    JsString.lastIndexOf_from c (s +:+ String c p) i f
    = i + Z.of_nat (String.length s).
Proof.
  intros Hp s. induction s as [|a s IH]; intros i f.
  - rewrite append_nil. cbn [JsString.lastIndexOf_from String.length].
    rewrite Ascii.eqb_refl, Hp. cbn. lia.
  - rewrite append_cons. cbn [JsString.lastIndexOf_from String.length].
    rewrite IH. lia.
Qed.

Lemma length_app_string (s t : string) :
  String.length (s +:+ t) = (String.length s + String.length t)%nat.
Proof.
  induction s as [|a s IH]; [reflexivity|].
  rewrite append_cons. cbn [String.length]. now rewrite IH.
Qed.

Lemma substring_all (s : string) : String.substring 0 (String.length s) s = s.
Proof. induction s as [|a s IH]; cbn; [reflexivity | now rewrite IH]. Qed.

Lemma substring_skip (s t : string) (m : nat) :
  String.substring (String.length s) m (s +:+ t) = String.substring 0 m t.
Proof.
  induction s as [|a s IH]; [reflexivity|].
  rewrite append_cons. cbn [String.length String.substring]. exact IH.
Qed.

Lemma substring_prefix (s t : string) :
  String.substring 0 (String.length s) (s +:+ t) = s.
Proof.
  induction s as [|a s IH].
  - rewrite append_nil. destruct t; reflexivity.
  - rewrite append_cons. cbn [String.length String.substring]. now rewrite IH.
Qed.

Lemma append_assoc_colon (host p : string) :
  host +:+ String ":" p = (host +:+ ":") +:+ p.
Proof.
  induction host as [|a h IH]; [reflexivity|].
  rewrite !append_cons. now rewrite IH.
Qed.

Lemma substr_after (host p : string) :
  JsString.substr (host +:+ String ":" p) (Z.of_nat (String.length host) + 1) None = p.
Proof.
  assert (String.length (host +:+ ":") = S (String.length host)) as Hlen
    by (rewrite length_app_string; cbn; lia).
  unfold JsString.substr. rewrite (append_assoc_colon host p).
  rewrite length_app_string, Hlen.
  destruct (Z.of_nat (String.length host) + 1 <? 0) eqn:E;
    [apply Z.ltb_lt in E; lia|].
  rewrite Z.min_l by lia.
  replace (Z.to_nat (Z.of_nat (S (String.length host) + String.length p)
                     - (Z.of_nat (String.length host) + 1)))
    with (String.length p) by lia.
  replace (Z.to_nat (Z.of_nat (String.length host) + 1))
    with (String.length (host +:+ ":")) by lia.
  rewrite substring_skip. apply substring_all.
Qed.

Lemma substr_before (host rest : string) :
  JsString.substr (host +:+ rest) 0 (Some (Z.of_nat (String.length host))) = host.
Proof.
  unfold JsString.substr. rewrite length_app_string. cbn [Z.ltb Z.compare].
  rewrite Z.min_l by lia. rewrite Z.max_l by lia. rewrite Z.min_l by lia.
  rewrite Nat2Z.id. apply substring_prefix.
Qed.

(** C10.  [connect("host:porttext", callback)]: the callback sits where the
    port is read, so the string is split at its last colon, and the record
    the parser returns holds the number read from the text after the colon
    in [address] and the text before it in [port]; the request is recorded
    for that record and the PING is handed to the socket with these two
    values. *)
Theorem parseRinfo_swaps_address_and_port
    (host porttext : string) (cb : UserFn) (e : Engine) :
  JsString.lastIndexOf porttext ":" = -1 ->
  let swapped := {| address := parseInt porttext; port := PStr host |} in
  parseRinfo (AStr (host +:+ ":" +:+ porttext)) (JFn cb) = swapped
  /\ connect (AStr (host +:+ ":" +:+ porttext)) (JFn cb) None e
     = (after_genRid swapped (CbConnect swapped (JFn cb)) e,
        [SocketSend [VNum MSG_TYPE_PING; VNum (_nextRid e)]
           (PStr host) (parseInt porttext)],
        Ret tt).
Proof.
  intros Hp swapped.
  assert (parseRinfo (AStr (host +:+ ":" +:+ porttext)) (JFn cb) = swapped) as Hparse.
  { unfold parseRinfo, swapped, JsString.lastIndexOf.
    change (":" +:+ porttext) with (String ":" porttext).
    rewrite lastIndexOf_from_app by (apply lastIndexOf_absent, Hp).
    rewrite Z.add_0_l, substr_after, substr_before. reflexivity. }
  split; [exact Hparse|].
  unfold connect. rewrite Hparse. unfold bind. rewrite _genRid_eq. reflexivity.
Qed.

(** ** The listener of inbound datagrams *)

(** C2.  Whatever datagram the transport delivers, the listener of the
    socket's ['message'] event leaves the instance as it is and lets nothing
    out: [self] is not bound, the exception is caught and the listener
    returns.  Besides, the instance's own [decode] yields [undefined] when
    it returns, and [_handleMessage] drops [undefined]. *)
Theorem on_message_drops_every_datagram (e : Engine) (buf : Buffer) (rinfo : Rinfo) :
  on_message buf rinfo e = (e, [], Ret tt)
  /\ (decode buf e = (e, [], Ret VUndef)
      \/ exists x, decode buf e = (e, [], Throw x))
  /\ _handleMessage VUndef rinfo e = (e, [], Ret tt).
Proof.
  split; [reflexivity|]. split; [|reflexivity].
  unfold decode. destruct (parser_decode buf); [left | right; eexists]; reflexivity.
Qed.

(** ** The request handler registry *)

Lemma send_to_rinfo (data : list value) (rinfo : Rinfo) (e : Engine) :
  send data (Some (AObj rinfo)) JUndef e
  = (e, [SocketSend data (port rinfo) (address rinfo)], Ret tt).
Proof. destruct rinfo. reflexivity. Qed.

Lemma _handleRequest_eq (e : Engine) (data : list value) (t : Z) (rid : value)
    (rinfo : Rinfo) :
  _requestTypesMap e = {[ MSG_TYPE_PING := _pingHandler ]} ->
  _handleRequest data t rid rinfo e
  = (e,
     [SocketSend
        (if t =? MSG_TYPE_PING then [VNum MSG_TYPE_RESPONSE; rid]
         else [VNum MSG_TYPE_ERROR_UNKNOWN; rid; VStr "Unknown request type"])
        (port rinfo) (address rinfo)],
     Ret tt).
Proof.
  intros Hmap. unfold _handleRequest, bind, get. cbv beta iota zeta.
  rewrite Hmap. destruct (Z.eqb_spec t MSG_TYPE_PING) as [->|Hne].
  - rewrite lookup_singleton_eq. unfold run_handler. now rewrite send_to_rinfo.
  - rewrite lookup_singleton_ne by congruence. now rewrite send_to_rinfo.
Qed.

(** C3 (code at the failing input).  The registry the constructor builds
    holds one handler, for PING, which answers with an empty RESPONSE; a
    request of any other positive type handed to [_handleMessage], GET and
    PUBLISH among them, is answered with the error response
    [[-1, rid, "Unknown request type"]]: a GET is not answered from the
    value store and a PUBLISH is not stored.  In both cases the instance is
    left as it is and no function of the application is called. *)
Theorem requests_other_than_ping_are_refused
    (e : Engine) (t rid : Z) (payload : list value) (rinfo : Rinfo) :
  _requestTypesMap e = _requestTypesMap (constructor 0 0 : Engine) ->
  0 < t ->
  _handleMessage (VArr (VNum t :: VNum rid :: payload)) rinfo e
  = (e,
     [SocketSend
        (if t =? MSG_TYPE_PING then [VNum MSG_TYPE_RESPONSE; VNum rid]
         else [VNum MSG_TYPE_ERROR_UNKNOWN; VNum rid; VStr "Unknown request type"])
        (port rinfo) (address rinfo)],
     Ret tt).
Proof.
  intros Hmap Ht. unfold _handleMessage. cbn [is_number andb].
  unfold MSG_TYPE_RESPONSE at 1 2.
  destruct (Z.eqb_spec t 0) as [|_]; [lia|].
  destruct (Z.gtb_spec t 0) as [_|]; [|lia].
  apply _handleRequest_eq. exact Hmap.
Qed.

(** ** Origin binding *)

Lemma strict_eq_true (a b : prim) : strict_eq a b = true -> a = b.
Proof.
  destruct a, b; cbn; try discriminate; intros H.
  - reflexivity.
  - apply Z.eqb_eq in H. congruence.
  - apply String.eqb_eq in H. congruence.
Qed.

Lemma rinfoEqual_true (a b : Rinfo) : rinfoEqual a b = true -> a = b.
Proof.
  unfold rinfoEqual. intros H. apply andb_true_iff in H as [Ha Hp].
  apply strict_eq_true in Ha, Hp. destruct a, b. cbn in *. congruence.
Qed.

Lemma _getRidCallback_none (e : Engine) (rid : Z) (origin : Rinfo) :
  (forall obj, _rids e !! rid = Some obj -> p_rinfo obj <> origin) ->
  _getRidCallback (VNum rid) origin e = (e, [], Ret None).
Proof.
  intros H. unfold _getRidCallback, bind, get. cbv beta iota zeta.
  destruct (_rids e !! rid) as [obj|] eqn:E; [|reflexivity].
  destruct (rinfoEqual (p_rinfo obj) origin) eqn:Heq; [|reflexivity].
  apply rinfoEqual_true in Heq. exfalso. exact (H obj eq_refl Heq).
Qed.

Lemma resolve_ignored (e : Engine) (rid t : Z) (payload : list value) (origin : Rinfo) :
  t <= 0 ->
  _getRidCallback (VNum rid) origin e = (e, [], Ret None) ->
  _handleMessage (VArr (VNum t :: VNum rid :: payload)) origin e = (e, [], Ret tt).
Proof.
  intros Ht Hnone.
  unfold _handleMessage. cbn [is_number andb]. unfold MSG_TYPE_RESPONSE.
  destruct (Z.eqb_spec t 0) as [_|Hne].
  - unfold _handleResponse, bind. now rewrite Hnone.
  - destruct (Z.gtb_spec t 0) as [|_]; [lia|].
    destruct (Z.ltb_spec t 0) as [_|]; [|lia].
    unfold _handleErrorResponse, bind. now rewrite Hnone.
Qed.

(** C8.  A response ([t = 0]) or an error response ([t < 0]) for [rid]
    that comes from [peerB] is ignored when no request is pending under
    [rid] or when the pending request was recorded for another endpoint, one
    that differs from [peerB] in address or port: [_getRidCallback] yields no
    closure, so the callback registered at allocation is not called, the
    instance stays as it is and nothing is let out. *)
Theorem resolve_from_other_peer_is_ignored
    (e : Engine) (rid t : Z) (payload : list value) (peerB : Rinfo) :
  t <= 0 ->
  (forall obj, _rids e !! rid = Some obj -> p_rinfo obj <> peerB) ->
  _getRidCallback (VNum rid) peerB e = (e, [], Ret None)
  /\ _handleMessage (VArr (VNum t :: VNum rid :: payload)) peerB e = (e, [], Ret tt).
Proof.
  intros Ht Hother.
  pose proof (_getRidCallback_none e rid peerB Hother) as Hnone.
  split; [exact Hnone | apply resolve_ignored; assumption].
Qed.

(** ** What the closures leave untouched *)

Lemma same_requests_refl (e : Engine) : same_requests e e.
Proof. split; reflexivity. Qed.

Lemma same_requests_trans (e1 e2 e3 : Engine) :
  same_requests e1 e2 -> same_requests e2 e3 -> same_requests e1 e3.
Proof. intros [H1 H2] [H3 H4]. split; congruence. Qed.

Lemma never_keeps {A} (m : M A) : never_returns m -> keeps_requests m.
Proof. intros H e e' out a Hm. destruct (H _ _ _ _ Hm). Qed.

Lemma keeps_ret {A} (a : A) : keeps_requests (ret a : M A).
Proof. intros e e' out a' H. inversion H. apply same_requests_refl. Qed.

Lemma keeps_get : keeps_requests (get : M Engine).
Proof. intros e e' out a' H. inversion H. apply same_requests_refl. Qed.

Lemma keeps_tell (ev : Event Sig) : keeps_requests (tell ev).
Proof. intros e e' out a' H. inversion H. apply same_requests_refl. Qed.

Lemma keeps_modify (f : Engine -> Engine) :
  (forall e, same_requests e (f e)) -> keeps_requests (modify f).
Proof. intros Hf e e' out a' H. inversion H. apply Hf. Qed.

Lemma keeps_bind {A B} (m : M A) (k : A -> M B) :
  keeps_requests m -> (forall a, keeps_requests (k a)) -> keeps_requests (bind m k).
Proof.
  intros Hm Hk e e' out b H. unfold bind in H.
  destruct (m e) as [[e1 out1] [a| |]] eqn:Em; try discriminate.
  destruct (k a e1) as [[e2 out2] r] eqn:Ek. inversion H; subst.
  eapply same_requests_trans; [eapply Hm | eapply Hk]; eassumption.
Qed.

Lemma never_bind_l {A B} (m : M A) (k : A -> M B) :
  never_returns m -> never_returns (bind m k).
Proof.
  intros Hm e e' out b H. unfold bind in H.
  destruct (m e) as [[e1 out1] [a| |]] eqn:Em; try discriminate.
  exact (Hm _ _ _ _ Em).
Qed.

Lemma never_bind_r {A B} (m : M A) (k : A -> M B) :
  (forall a, never_returns (k a)) -> never_returns (bind m k).
Proof.
  intros Hk e e' out b H. unfold bind in H.
  destruct (m e) as [[e1 out1] [a| |]] eqn:Em; try discriminate.
  destruct (k a e1) as [[e2 out2] r] eqn:Ek. inversion H; subst.
  exact (Hk _ _ _ _ _ Ek).
Qed.

Lemma never_throw {A} (x : Exn) : never_returns (throw x : M A).
Proof. intros e e' out a H. discriminate H. Qed.

Lemma never_stuck {A} : never_returns (stuck : M A).
Proof. intros e e' out a H. discriminate H. Qed.

(** Without a destination, [send] throws. *)
Lemma never_send_nowhere (data : list value) (p : PortArg Sig) :
  never_returns (send data None p).
Proof. apply never_throw. Qed.

(** Hence an iteratee of [lookup] or [publish] never returns. *)
Lemma never_iteratee (id : nat) (peer : Rinfo) : never_returns (iteratee id peer : M unit).
Proof.
  unfold iteratee. apply never_bind_r. intros r.
  destruct (r_kind r); apply never_bind_r; intros rid; apply never_send_nowhere.
Qed.

Ltac keeps_step :=
  first
    [ apply keeps_ret | apply keeps_get | apply keeps_tell
    | apply never_keeps, never_throw | apply never_keeps, never_stuck
    | apply keeps_modify; intros ?; split; reflexivity
    | apply keeps_bind; [| intros ?]
    | match goal with
      | |- keeps_requests (match ?x with _ => _ end) => destruct x
      | |- keeps_requests (let _ := _ in _) => cbv zeta
      end ].

Lemma keeps_call (f : UserFn) (args : list value) : keeps_requests (call f args).
Proof. unfold call. repeat keeps_step. Qed.

Lemma keeps_get_round (id : nat) : keeps_requests (get_round id : M (Round Sig)).
Proof. unfold get_round. repeat keeps_step. Qed.

Lemma keeps_update_round (id : nat) (f : Round Sig -> Round Sig) :
  keeps_requests (update_round id f).
Proof. unfold update_round. repeat keeps_step. Qed.

Lemma keeps__addPeer (rinfo : Rinfo) : keeps_requests (_addPeer rinfo : M unit).
Proof. unfold _addPeer. repeat keeps_step. Qed.

Lemma keeps__removePeer (rinfo : Rinfo) : keeps_requests (_removePeer rinfo : M unit).
Proof. unfold _removePeer. repeat keeps_step. Qed.

Lemma keeps_final (id : nat) : keeps_requests (final id : M unit).
Proof.
  unfold final.
  repeat first [apply keeps_get_round | apply keeps_update_round
               | apply keeps_call | keeps_step].
Qed.

Lemma keeps_replenish_loop (id : nat) (items : list Rinfo) :
  keeps_requests (replenish_loop items id : M unit).
Proof.
  destruct items as [|elem rest]; cbn [replenish_loop].
  - repeat first [apply keeps_get_round | apply keeps_update_round
                 | apply keeps_final | keeps_step].
  - apply keeps_bind; [apply keeps_get_round | intros r].
    destruct ((r_running r <? PUBLIC_ASYNC_LIMIT) && negb (r_done r));
      [| apply keeps_update_round].
    apply keeps_bind; [apply keeps_update_round | intros _].
    apply never_keeps, never_bind_l, never_iteratee.
Qed.

Lemma keeps_replenish (id : nat) : keeps_requests (replenish id : M unit).
Proof.
  unfold replenish.
  repeat first [apply keeps_get_round | apply keeps_update_round
               | apply keeps_replenish_loop | keeps_step].
Qed.

Lemma keeps_iterateeCallback (id : nat) : keeps_requests (iterateeCallback id : M unit).
Proof.
  unfold iterateeCallback.
  repeat first [apply keeps_get_round | apply keeps_update_round
               | apply keeps_final | apply keeps_replenish | keeps_step].
Qed.

Lemma keeps_no_length (data : value) : keeps_requests (no_length data).
Proof. unfold no_length. repeat keeps_step. Qed.

(** A closure given to [_genRid], when it returns, has changed neither the
    pending requests nor the timers. *)
Lemma keeps_run_callback (cb : Callback) (args : list value) :
  keeps_requests (run_callback cb args).
Proof.
  destruct cb; cbn [run_callback];
    unfold connect_callback, lookup_callback, publish_callback;
    repeat first [apply keeps_get_round | apply keeps_update_round
                 | apply keeps_call | apply keeps__addPeer | apply keeps__removePeer
                 | apply keeps_iterateeCallback | apply keeps_no_length
                 | keeps_step].
Qed.

(** ** The streaming contract *)

Lemma _getRidCallback_some (e : Engine) (rid : Z) (obj : Pending) (origin : Rinfo) :
  _rids e !! rid = Some obj ->
  rinfoEqual (p_rinfo obj) origin = true ->
  _getRidCallback (VNum rid) origin e = (e, [], Ret (Some (rid, obj))).
Proof.
  intros Hobj Heq. unfold _getRidCallback, bind, get. cbv beta iota zeta.
  now rewrite Hobj, Heq.
Qed.

(** The instance once the closure of [_getRidCallback] has cleared the
    timer and deleted the entry. *)
Lemma rid_callback_eq (e e1 : Engine) (rid : Z) (obj : Pending)
    (err data v : value) (origin : Rinfo) (out : list (Event Sig)) :
  run_callback (p_callback obj) [err; data; VRinfo origin] e = (e1, out, Ret v) ->
  rid_callback rid obj err data origin e
  = (if is_continue v && negb (truthy err) then e1
     else set_rids (delete rid)
            (set_timers (delete (p_timeout obj)) (next_timer e1) e1),
     out, Ret tt).
Proof.
  intros Hrun. unfold rid_callback, bind. rewrite Hrun.
  destruct v as [| |[|]| | | | | | | |]; cbn [is_continue andb];
    try destruct (truthy err); cbn; rewrite app_nil_r; reflexivity.
Qed.

Lemma request_removed_after (e1 : Engine) (rid : Z) (h : nat) :
  request_removed rid h
    (set_rids (delete rid) (set_timers (delete h) (next_timer e1) e1)).
Proof.
  assert (_rids (set_rids (delete rid) (set_timers (delete h) (next_timer e1) e1))
          !! rid = None) as Hgone by (cbn; apply lookup_delete_eq).
  split; [exact Hgone|]. split; [cbn; apply lookup_delete_eq|].
  intros t payload origin Ht. apply resolve_ignored; [exact Ht|].
  apply _getRidCallback_none. intros obj Hobj. congruence.
Qed.

(** C9.  Let a request be pending under [rid] and let a resolve come from
    the endpoint it was recorded for.  Without error: when the registered
    callback returns [true], the entry and its timer are kept as they are
    (so the next resolve reaches the callback again); when it returns
    anything else, the timer is cleared, the entry is deleted and later
    resolves for [rid] do nothing.  With an error: timer and entry are
    removed whatever the callback returns. *)
Theorem continue_keeps_the_request_alive
    (e : Engine) (rid : Z) (obj : Pending) (origin : Rinfo) :
  _rids e !! rid = Some obj ->
  rinfoEqual (p_rinfo obj) origin = true ->
  (forall (payload : list value) (e1 : Engine) (out : list (Event Sig)) (v : value),
      run_callback (p_callback obj) [VNull; VArr payload; VRinfo origin] e
      = (e1, out, Ret v) ->
      exists e2 : Engine,
        _handleMessage (VArr (VNum MSG_TYPE_RESPONSE :: VNum rid :: payload)) origin e
        = (e2, out, Ret tt)
        /\ if is_continue v
           then e2 = e1
                /\ _rids e2 !! rid = Some obj
                /\ timers e2 !! p_timeout obj = timers e !! p_timeout obj
                /\ _getRidCallback (VNum rid) origin e2
                   = (e2, [], Ret (Some (rid, obj)))
           else request_removed rid (p_timeout obj) e2)
  /\ (forall (code : Z) (payload : list value) (e1 : Engine)
             (out : list (Event Sig)) (v : value),
        code < 0 ->
        run_callback (p_callback obj)
          [response_error payload code; VArr (tl payload); VRinfo origin] e
        = (e1, out, Ret v) ->
        exists e2 : Engine,
          _handleMessage (VArr (VNum code :: VNum rid :: payload)) origin e
          = (e2, out, Ret tt)
          /\ request_removed rid (p_timeout obj) e2).
Proof.
  intros Hobj Heq.
  pose proof (_getRidCallback_some e rid obj origin Hobj Heq) as Hcb.
  split.
  - intros payload e1 out v Hrun.
    pose proof (keeps_run_callback _ _ _ _ _ _ Hrun) as [Hrids Htimers].
    eexists. split.
    + unfold _handleMessage. cbn [is_number andb]. rewrite Z.eqb_refl.
      unfold _handleResponse, bind. rewrite Hcb.
      rewrite (rid_callback_eq _ _ _ _ _ _ _ _ _ Hrun). cbn [app truthy negb].
      rewrite andb_true_r. reflexivity.
    + destruct (is_continue v).
      * rewrite Hrids, Htimers. repeat split; auto.
        apply _getRidCallback_some; [congruence | exact Heq].
      * apply request_removed_after.
  - intros code payload e1 out v Hcode Hrun.
    eexists. split.
    + unfold _handleMessage. cbn [is_number andb]. unfold MSG_TYPE_RESPONSE.
      destruct (Z.eqb_spec code 0) as [|_]; [lia|].
      destruct (Z.gtb_spec code 0) as [|_]; [lia|].
      destruct (Z.ltb_spec code 0) as [_|]; [|lia].
      unfold _handleErrorResponse, bind. rewrite Hcb.
      rewrite (rid_callback_eq _ _ _ _ _ _ _ _ _ Hrun).
      unfold response_error at 1. cbn [truthy negb app]. rewrite andb_false_r.
      reflexivity.
    + apply request_removed_after.
Qed.

(** ** connect *)

Lemma _removePeer_gone (rinfo : Rinfo) (e : Engine) :
  exists e' : Engine,
    _removePeer rinfo e = (e', [], Ret tt)
    /\ _peersMap e' !! peer_key rinfo = None.
Proof.
  unfold _removePeer, bind, get. cbv beta iota zeta.
  destruct (_peersMap e !! peer_key rinfo) eqn:E.
  - eexists. split; [reflexivity|]. cbn. apply lookup_delete_eq.
  - exists e. split; [reflexivity | exact E].
Qed.

Lemma _addPeer_present (rinfo : Rinfo) (e : Engine) :
  exists e' : Engine,
    _addPeer rinfo e = (e', [], Ret tt)
    /\ is_Some (_peersMap e' !! peer_key rinfo).
Proof.
  unfold _addPeer, bind, get. cbv beta iota zeta.
  destruct (_peersMap e !! peer_key rinfo) eqn:E.
  - exists e. split; [reflexivity | rewrite E; eauto].
  - eexists. split; [reflexivity|]. cbn. rewrite lookup_insert_eq. eauto.
Qed.

(** C7 (code at the failing input).  The closure [connect] registers calls
    the caller's callback with [null] in the place of the error, whatever
    the outcome: on a failure [err] the endpoint is taken out of the
    registry and the callback receives [(null, data, rinfo)].  In
    particular, when [connect(address, port, f)] on a fresh instance times
    out, [f] is called with [(null, undefined, rinfo)]. *)
Theorem connect_calls_back_without_the_error
    (e : Engine) (rinfo : Rinfo) (f : UserFn) (err data : value)
    (s now p : Z) (a : string) :
  (exists e' : Engine,
      connect_callback rinfo (JFn f) err data e
      = (e', [Call (fn_id f) [VNull; data; VRinfo rinfo]], Ret VUndef)
      /\ if truthy err then _peersMap e' !! peer_key rinfo = None
         else is_Some (_peersMap e' !! peer_key rinfo))
  /\ (exists e1 e2 : Engine,
        connect (AStr a) (JNum p) (Some f) (constructor s now)
        = (e1, [SocketSend [VNum MSG_TYPE_PING; VNum s] (PNum p) (PStr a)], Ret tt)
        /\ fire_timer 0 e1
           = (e2,
              [Call (fn_id f)
                 [VNull; VUndef; VRinfo {| address := PStr a; port := PNum p |}]],
              Ret tt)
        /\ _peersMap e2 = ∅).
Proof.
  split.
  - unfold connect_callback. destruct (truthy err).
    + destruct (_removePeer_gone rinfo e) as (e' & Hrem & Hgone).
      exists e'. unfold bind. rewrite Hrem. split; [reflexivity | exact Hgone].
    + destruct (_addPeer_present rinfo e) as (e' & Hadd & Hin).
      exists e'. unfold bind. rewrite Hadd. split; [reflexivity | exact Hin].
  - do 2 eexists. split; [|split].
    + unfold connect. cbn [parseRinfo]. unfold bind. rewrite _genRid_eq. reflexivity.
    + unfold fire_timer, bind, get. cbv beta iota zeta.
      cbn [after_genRid timers set_rids set_timers set_nextRid constructor
           next_timer _nextRid].
      rewrite lookup_insert_eq. reflexivity.
    + reflexivity.
Qed.

(** ** Running [async.eachLimit] *)

Lemma bind_Ret_nil {A B} (m : M A) (k : A -> M B) (e e1 : Engine) (a : A) :
  m e = (e1, [], Ret a) -> bind m k e = k a e1.
Proof.
  intros H. unfold bind. rewrite H. destruct (k a e1) as [[e2 out2] r]. reflexivity.
Qed.

Lemma bind_Throw {A B} (m : M A) (k : A -> M B) (e e1 : Engine)
    (out : list (Event Sig)) (x : Exn) :
  m e = (e1, out, Throw x) -> bind m k e = (e1, out, Throw x).
Proof. intros H. unfold bind. now rewrite H. Qed.

Lemma bind_bind {A B C} (m : M A) (k1 : A -> M B) (k2 : B -> M C) (e : Engine) :
  bind (bind m k1) k2 e = bind m (fun a => bind (k1 a) k2) e.
Proof.
  unfold bind. destruct (m e) as [[e1 out1] [a| |]]; try reflexivity.
  destruct (k1 a e1) as [[e2 out2] [b| |]]; try reflexivity.
  destruct (k2 b e2) as [[e3 out3] r]. now rewrite app_assoc.
Qed.

Lemma get_eq (e : Engine) : (get : M Engine) e = (e, [], Ret e).
Proof. reflexivity. Qed.

Lemma modify_eq (f : Engine -> Engine) (e : Engine) : modify f e = (f e, [], Ret tt).
Proof. reflexivity. Qed.

Lemma get_round_eq (id : nat) (r : Round Sig) (e : Engine) :
  rounds e !! id = Some r -> get_round id e = (e, [], Ret r).
Proof. intros H. unfold get_round, bind, get. cbv beta iota zeta. now rewrite H. Qed.

Lemma update_round_eq (id : nat) (f : Round Sig -> Round Sig) (e : Engine) :
  update_round id f e = (set_rounds (alter f id) (next_round e) e, [], Ret tt).
Proof. reflexivity. Qed.

Lemma send_nowhere_eq (data : list value) (e : Engine) :
  exists msg, send data None JUndef e = (e, [], Throw (TypeError msg)).
Proof. eexists. reflexivity. Qed.

Ltac fields :=
  cbn beta iota zeta delta
    [fst snd app
     _rids _nextRid _requestTypesMap _peers _peersMap _peersVarsMap _varsMap
     _events timers next_timer rounds next_round clock
     set_rids set_nextRid set_peersMap set_peersVarsMap set_varsMap set_events
     set_timers set_rounds after_genRid
     r_kind r_callback r_items r_running r_done r_looping r_called r_newPeers
     r_latest r_errors
     set_items set_running set_done set_looping set_called set_newPeers
     set_latest set_errors
     andb negb fmap option_fmap option_map
     PUBLIC_ASYNC_LIMIT Z.ltb Z.leb Z.compare Pos.compare Pos.compare_cont
     Z.add Z.sub Z.opp Z.pos_sub].

Ltac round_lookup :=
  fields; rewrite ?lookup_alter_eq, ?lookup_insert_eq; fields; reflexivity.

Ltac exec :=
  repeat first
    [ rewrite bind_bind
    | match goal with
      | |- context [bind (get_round ?id) ?k ?e] =>
          erewrite (bind_Ret_nil (get_round id) k e)
            by (apply get_round_eq; round_lookup)
      | |- context [bind (update_round ?id ?f) ?k ?e] =>
          rewrite (bind_Ret_nil (update_round id f) k e _ _ (update_round_eq id f e))
      | |- context [bind get ?k ?e] =>
          rewrite (bind_Ret_nil get k e _ _ (get_eq e))
      | |- context [bind (modify ?f) ?k ?e] =>
          rewrite (bind_Ret_nil (modify f) k e _ _ (modify_eq f e))
      | |- context [bind (_genRid ?r ?c) ?k ?e] =>
          rewrite (bind_Ret_nil (_genRid r c) k e _ _ (_genRid_eq r c e))
      end
    | progress fields ].

(** The rounds of a store built by updates of one round over a store whose
    rounds are settled: the updated round is settled by evaluation, the
    others are untouched. *)
Ltac settled_store Hall :=
  let j := fresh "j" in
  let r := fresh "r" in
  let Hne := fresh "Hne" in
  intros j r; fields;
  match goal with
  | |- context [alter _ ?id _ !! j] =>
      destruct (decide (id = j)) as [<-|Hne];
      [ rewrite ?lookup_alter_eq, ?lookup_insert_eq; fields;
        intros [= <-]; split; [reflexivity | auto]
      | rewrite ?lookup_alter_ne, ?lookup_insert_ne by assumption; apply Hall ]
  end.

(** Over an empty collection the final callback runs at once. *)
Lemma eachLimit_nil (kind : RoundKind Sig) (cb : option UserFn) (latest : option Sig)
    (e : Engine) :
  exists e' : Engine,
    eachLimit kind [] cb latest e
    = (e',
       match cb with
       | None => []
       | Some f =>
           [Call (fn_id f)
              [VNull;
               match kind with
               | LookupRound _ _ =>
                   match latest with Some s => VSig s | None => VNull end
               | PublishRound _ peers_length => VNum (peers_length - 0)
               end]]
       end,
       Ret tt)
    /\ _varsMap e' = _varsMap e
    /\ _events e' = _events e
    /\ _peersVarsMap e'
       = match kind with
         | LookupRound key _ => <[ key := [] ]> (_peersVarsMap e)
         | PublishRound _ _ => _peersVarsMap e
         end
    /\ (invariant e -> invariant e').
Proof.
  unfold eachLimit. exec. unfold replenish. exec. cbn [replenish_loop]. exec.
  unfold final. exec.
  destruct kind, cb; exec; unfold call, bind, tell, ret; fields;
    eexists; (split; [reflexivity|]); fields; repeat (split; [reflexivity|]);
    intros (Hq & Hp & Hv & Hr); (split; [exact Hq|]); (split; [exact Hp|]); fields;
    (split; [try apply map_Forall_insert_2; auto | settled_store Hr]).
Qed.

(** Over a collection that is not empty the first iteratee registers its
    request and throws when it calls [send] without a destination; nothing
    has been handed to the socket, no callback has run. *)
Lemma eachLimit_cons (kind : RoundKind Sig) (cb : option UserFn) (latest : option Sig)
    (e : Engine) (peer : Rinfo) (peers : list Rinfo) :
  exists (e' : Engine) (msg : string),
    eachLimit kind (peer :: peers) cb latest e = (e', [], Throw (TypeError msg))
    /\ _varsMap e' = _varsMap e
    /\ _events e' = _events e
    /\ _peersVarsMap e' = _peersVarsMap e
    /\ (invariant e -> invariant e').
Proof.
  unfold eachLimit. exec. unfold replenish. exec. cbn [replenish_loop]. exec.
  unfold iteratee. exec.
  destruct kind; exec;
    match goal with
    | |- context [bind (send ?d None JUndef) ?k ?e0] =>
        destruct (send_nowhere_eq d e0) as [msg Hsend];
        rewrite (bind_Throw _ k _ _ _ _ Hsend)
    end;
    do 2 eexists; (split; [reflexivity|]); fields; repeat (split; [reflexivity|]);
    intros (Hq & Hp & Hv & Hr); (split; [exact Hq|]); (split; [exact Hp|]);
    (split; [exact Hv|]);
    settled_store Hr.
Qed.

(** ** lookup and publish *)

(** C4 (code at the failing input).  [lookup] hands no GET to the socket,
    whatever the instance and the arguments.  When the candidate set (the
    set recorded for the key, else [_peers]) is empty, the callback is called
    at once with the signature passed in and the empty set is recorded; when
    it holds a peer, the first iteratee throws a [TypeError] at [send], so no
    request goes out, the callback is not called and no set is recorded. *)
Theorem lookup_sends_no_get
    (e : Engine) (pk : Buffer) (currentSig : option Sig) (cb : option UserFn) :
  match default (_peers e) (_peersVarsMap e !! hex pk) with
  | [] =>
      exists e' : Engine,
        lookup pk currentSig cb e
        = (e',
           match cb with
           | None => []
           | Some f =>
               [Call (fn_id f)
                  [VNull; match currentSig with Some s => VSig s | None => VNull end]]
           end,
           Ret tt)
        /\ _peersVarsMap e' !! hex pk = Some []
  | _ :: _ =>
      exists (e' : Engine) (msg : string),
        lookup pk currentSig cb e = (e', [], Throw (TypeError msg))
        /\ _peersVarsMap e' = _peersVarsMap e
  end.
Proof.
  unfold lookup. rewrite (bind_Ret_nil get _ e _ _ (get_eq e)).
  replace (match _peersVarsMap e !! hex pk with
           | Some peers => peers
           | None => _peers e
           end)
    with (default (_peers e) (_peersVarsMap e !! hex pk))
    by (destruct (_peersVarsMap e !! hex pk); reflexivity).
  destruct (default (_peers e) (_peersVarsMap e !! hex pk)) as [|peer peers].
  - destruct (eachLimit_nil (LookupRound (hex pk) pk) cb currentSig e)
      as (e' & Hrun & _ & _ & Hmap & _).
    exists e'. split; [exact Hrun|]. rewrite Hmap. apply lookup_insert_eq.
  - destruct (eachLimit_cons (LookupRound (hex pk) pk) cb currentSig e peer peers)
      as (e' & msg & Hrun & _ & _ & Hmap & _).
    exists e', msg. split; assumption.
Qed.

Lemma publish_eq (e : Engine) (sharedVar : SharedVar Sig) (cb : option UserFn) :
  publish sharedVar cb e
  = match _peersVarsMap e !! hex (publicKey sharedVar) with
    | None => (set_varsMap <[ hex (publicKey sharedVar) := sharedVar ]> e, [], Ret tt)
    | Some peers =>
        eachLimit (PublishRound sharedVar (Z.of_nat (length peers))) peers cb None
          (set_varsMap <[ hex (publicKey sharedVar) := sharedVar ]> e)
    end.
Proof.
  unfold publish.
  rewrite (bind_Ret_nil (modify _) _ e _ _ (modify_eq _ e)).
  rewrite (bind_Ret_nil get _ _ _ _ (get_eq _)).
  cbn [_peersVarsMap set_varsMap].
  destruct (_peersVarsMap e !! hex (publicKey sharedVar)); reflexivity.
Qed.

(** C5 (code at the failing input).  [publish] stores the value.  When no
    peer set is recorded for the key it returns without calling the
    callback.  When the recorded set is empty the callback is called with
    the count [0]; when it holds a peer, the first iteratee throws a
    [TypeError] at [send]: no PUBLISH goes out and the callback is not
    called. *)
Theorem publish_without_peer_set_skips_the_callback
    (e : Engine) (sharedVar : SharedVar Sig) (cb : option UserFn) :
  let key := hex (publicKey sharedVar) in
  match _peersVarsMap e !! key with
  | None =>
      publish sharedVar cb e = (set_varsMap <[ key := sharedVar ]> e, [], Ret tt)
  | Some [] =>
      exists e' : Engine,
        publish sharedVar cb e
        = (e',
           match cb with
           | None => []
           | Some f => [Call (fn_id f) [VNull; VNum 0]]
           end,
           Ret tt)
        /\ _varsMap e' !! key = Some sharedVar
  | Some (_ :: _) =>
      exists (e' : Engine) (msg : string),
        publish sharedVar cb e = (e', [], Throw (TypeError msg))
        /\ _varsMap e' !! key = Some sharedVar
  end.
Proof.
  intros key. rewrite publish_eq. fold key.
  destruct (_peersVarsMap e !! key) as [[|peer peers]|]; [| |reflexivity].
  - destruct (eachLimit_nil (PublishRound sharedVar (Z.of_nat (length (@nil Rinfo))))
                cb None (set_varsMap <[ key := sharedVar ]> e))
      as (e' & Hrun & Hvars & _ & _ & _).
    exists e'. split; [exact Hrun|].
    rewrite Hvars. cbn [_varsMap set_varsMap]. apply lookup_insert_eq.
  - destruct (eachLimit_cons (PublishRound sharedVar (Z.of_nat (length (peer :: peers))))
                cb None (set_varsMap <[ key := sharedVar ]> e) peer peers)
      as (e' & msg & Hrun & Hvars & _ & _ & _).
    exists e', msg. split; [exact Hrun|].
    rewrite Hvars. cbn [_varsMap set_varsMap]. apply lookup_insert_eq.
Qed.

(** C6 (code at the failing input).  [onPublish] records the listener
    under the event named by the key in hexadecimal.  A local [publish]
    stores the value, whatever was stored before, leaves the listeners as
    they are and calls no function of the application except, at most once,
    its own callback with [(null, count)]: the listener is not called.  An
    inbound PUBLISH request handed to [_handleMessage] is answered with
    "Unknown request type": nothing is stored, no function of the
    application is called. *)
Theorem publish_calls_no_listener
    (e : Engine) (sharedVar : SharedVar Sig) (cb : option UserFn)
    (pk : Buffer) (listener : UserFn)
    (rid : Z) (payload : list value) (rinfo : Rinfo) :
  _requestTypesMap e = _requestTypesMap (constructor 0 0 : Engine) ->
  onPublish pk listener e
  = (set_events
       (fun m => <[ hex pk := default [] (m !! hex pk) ++ [listener] ]> m) e,
     [], Ret tt)
  /\ (exists (e' : Engine) (out : list (Event Sig)) (r : Res unit),
        publish sharedVar cb e = (e', out, r)
        /\ _varsMap e' !! hex (publicKey sharedVar) = Some sharedVar
        /\ _events e' = _events e
        /\ (out = []
            \/ exists (g : UserFn) (n : Z),
                 cb = Some g /\ out = [Call (fn_id g) [VNull; VNum n]]))
  /\ _handleMessage (VArr (VNum MSG_TYPE_PUBLISH :: VNum rid :: payload)) rinfo e
     = (e,
        [SocketSend
           [VNum MSG_TYPE_ERROR_UNKNOWN; VNum rid; VStr "Unknown request type"]
           (port rinfo) (address rinfo)],
        Ret tt).
Proof.
  intros Hmap. split; [reflexivity|]. split.
  - rewrite publish_eq.
    destruct (_peersVarsMap e !! hex (publicKey sharedVar)) as [[|peer peers]|].
    + destruct (eachLimit_nil (PublishRound sharedVar (Z.of_nat (length (@nil Rinfo))))
                  cb None (set_varsMap <[ hex (publicKey sharedVar) := sharedVar ]> e))
        as (e' & Hrun & Hvars & Hev & _ & _).
      do 3 eexists. split; [exact Hrun|]. split; [|split].
      * rewrite Hvars. cbn [_varsMap set_varsMap]. apply lookup_insert_eq.
      * rewrite Hev. reflexivity.
      * destruct cb as [g|]; [right; eauto | left; reflexivity].
    + destruct (eachLimit_cons
                  (PublishRound sharedVar (Z.of_nat (length (peer :: peers))))
                  cb None (set_varsMap <[ hex (publicKey sharedVar) := sharedVar ]> e)
                  peer peers)
        as (e' & msg & Hrun & Hvars & Hev & _ & _).
      do 3 eexists. split; [exact Hrun|]. split; [|split].
      * rewrite Hvars. cbn [_varsMap set_varsMap]. apply lookup_insert_eq.
      * rewrite Hev. reflexivity.
      * left. reflexivity.
    + do 3 eexists. split; [reflexivity|]. split; [|split].
      * cbn [_varsMap set_varsMap]. apply lookup_insert_eq.
      * reflexivity.
      * left. reflexivity.
  - unfold _handleMessage. cbn [is_number andb].
    change (MSG_TYPE_PUBLISH =? MSG_TYPE_RESPONSE) with false.
    change (MSG_TYPE_PUBLISH >? MSG_TYPE_RESPONSE) with true.
    cbv iota. rewrite _handleRequest_eq by exact Hmap. reflexivity.
Qed.

(** ** The invariant of reachable instances *)

Lemma steady_ret {A} (a : A) : steady (ret a : M A).
Proof. intros e e' out r H Hm. inversion Hm; subst. exact H. Qed.

Lemma steady_get : steady (get : M Engine).
Proof. intros e e' out r H Hm. inversion Hm; subst. exact H. Qed.

Lemma steady_tell (ev : Event Sig) : steady (tell ev).
Proof. intros e e' out r H Hm. inversion Hm; subst. exact H. Qed.

Lemma steady_throw {A} (x : Exn) : steady (throw x : M A).
Proof. intros e e' out r H Hm. inversion Hm; subst. exact H. Qed.

Lemma steady_stuck {A} : steady (stuck : M A).
Proof. intros e e' out r H Hm. inversion Hm; subst. exact H. Qed.

Lemma steady_modify (f : Engine -> Engine) :
  (forall e, invariant e -> invariant (f e)) -> steady (modify f).
Proof. intros Hf e e' out r H Hm. inversion Hm; subst. auto. Qed.

Lemma steady_bind {A B} (m : M A) (k : A -> M B) :
  steady m -> (forall a, steady (k a)) -> steady (bind m k).
Proof.
  intros Hm Hk e e' out r H Hrun. unfold bind in Hrun.
  destruct (m e) as [[e1 out1] [a| |]] eqn:Em.
  - destruct (k a e1) as [[e2 out2] r2] eqn:Ek. inversion Hrun; subst.
    eapply Hk; [eapply Hm|]; eassumption.
  - inversion Hrun; subst. eapply Hm; eassumption.
  - inversion Hrun; subst. eapply Hm; eassumption.
Qed.

Lemma steady_try_catch {A} (m : M A) (h : Exn -> M A) :
  steady m -> (forall x, steady (h x)) -> steady (try_catch m h).
Proof.
  intros Hm Hh e e' out r H Hrun. unfold try_catch in Hrun.
  destruct (m e) as [[e1 out1] [a| |]] eqn:Em.
  - inversion Hrun; subst. eapply Hm; eassumption.
  - destruct (h x e1) as [[e2 out2] r2] eqn:Eh. inversion Hrun; subst.
    eapply Hh; [eapply Hm|]; eassumption.
  - inversion Hrun; subst. eapply Hm; eassumption.
Qed.

(** A round read from the store of an instance under [invariant] is
    settled. *)
Lemma steady_get_round_bind {B} (id : nat) (k : Round Sig -> M B) :
  (forall r, settled r -> steady (k r)) -> steady (bind (get_round id) k).
Proof.
  intros Hk e e' out r H Hrun.
  destruct (rounds e !! id) as [r0|] eqn:Hr0.
  - rewrite (bind_Ret_nil _ _ _ _ _ (get_round_eq id r0 e Hr0)) in Hrun.
    eapply Hk; [|exact H|exact Hrun]. destruct H as (_ & _ & _ & Hall). eapply Hall, Hr0.
  - assert (get_round id e = (e, [], Stuck)) as Hstuck.
    { unfold get_round, bind, get. cbv beta iota zeta. now rewrite Hr0. }
    unfold bind in Hrun. rewrite Hstuck in Hrun. inversion Hrun; subst. exact H.
Qed.

Lemma settled_alter (g : Round Sig -> Round Sig) (id : nat) (m : gmap nat (Round Sig)) :
  (forall r, m !! id = Some r -> settled (g r)) ->
  map_Forall (fun _ r => settled r) m ->
  map_Forall (fun _ r => settled r) (alter g id m).
Proof.
  intros Hg Hall j r Hj. destruct (decide (id = j)) as [<-|Hne].
  - rewrite lookup_alter_eq in Hj. destruct (m !! id) as [r0|] eqn:E; [|discriminate].
    injection Hj as <-. apply Hg. reflexivity.
  - rewrite lookup_alter_ne in Hj by assumption. eapply Hall, Hj.
Qed.

Lemma steady_update_round (id : nat) (g : Round Sig -> Round Sig) :
  (forall r, settled r -> settled (g r)) -> steady (update_round id g).
Proof.
  intros Hg e e' out r (Hq & Hp & Hv & Hr) Hrun. inversion Hrun; subst.
  split; [exact Hq|]. split; [exact Hp|]. split; [exact Hv|]. cbn [rounds set_rounds].
  apply settled_alter; [|exact Hr]. intros r0 Hr0. eapply Hg, Hr, Hr0.
Qed.

Ltac steady_step :=
  first
    [ apply steady_ret | apply steady_get | apply steady_tell
    | apply steady_throw | apply steady_stuck
    | apply steady_modify; intros ? ?; assumption
    | apply steady_update_round; intros ? ?; assumption
    | apply steady_get_round_bind; intros ? ?
    | apply steady_bind; [| intros ?]
    | match goal with
      | |- steady (match ?x with _ => _ end) => destruct x
      | |- steady (let _ := _ in _) => cbv zeta
      end ].

Lemma steady_call (f : UserFn) (args : list value) : steady (call f args).
Proof. unfold call. repeat steady_step. Qed.

Lemma steady__addPeer (rinfo : Rinfo) : steady (_addPeer rinfo : M unit).
Proof. unfold _addPeer. repeat steady_step. Qed.

Lemma steady__removePeer (rinfo : Rinfo) : steady (_removePeer rinfo : M unit).
Proof. unfold _removePeer. repeat steady_step. Qed.

Lemma steady_no_length (data : value) : steady (no_length data).
Proof. unfold no_length. repeat steady_step. Qed.

Lemma steady__genRid (rinfo : Rinfo) (cb : Callback) : steady (_genRid rinfo cb).
Proof.
  intros e e' out r H Hrun. rewrite _genRid_eq in Hrun. inversion Hrun; subst. exact H.
Qed.

Lemma steady_send (data : list value) (a : option AddrArg) (p : PortArg Sig) :
  steady (send data a p).
Proof.
  unfold send. destruct a as [a|]; [|apply steady_throw].
  destruct (parseRinfo a p). apply steady_tell.
Qed.


Lemma invariant_alter (e : Engine) (g : Round Sig -> Round Sig) (id n : nat) :
  invariant e ->
  (forall r, rounds e !! id = Some r -> settled (g r)) ->
  invariant (set_rounds (alter g id) n e).
Proof.
  intros (Hq & Hp & Hv & Hr) Hg. split; [exact Hq|]. split; [exact Hp|]. split; [exact Hv|].
  cbn [rounds set_rounds]. apply settled_alter; assumption.
Qed.

Lemma get_round_none (id : nat) (e : Engine) :
  rounds e !! id = None -> get_round id e = (e, [], Stuck).
Proof. intros H. unfold get_round, bind, get. cbv beta iota zeta. now rewrite H. Qed.

Lemma bind_Stuck {A B} (m : M A) (k : A -> M B) (e e1 : Engine)
    (out : list (Event Sig)) :
  m e = (e1, out, Stuck) -> bind m k e = (e1, out, Stuck).
Proof. intros H. unfold bind. now rewrite H. Qed.

Ltac known_round :=
  fields; rewrite ?lookup_alter_eq, ?lookup_insert_eq;
  repeat match goal with
         | H : rounds _ !! _ = _ |- _ => rewrite H
         end;
  fields; reflexivity.

Ltac exec_in_store :=
  repeat first
    [ rewrite bind_bind
    | match goal with
      | |- context [bind (get_round ?id) ?k ?e] =>
          erewrite (bind_Ret_nil (get_round id) k e)
            by (apply get_round_eq; known_round)
      | |- context [bind (update_round ?id ?f) ?k ?e] =>
          rewrite (bind_Ret_nil (update_round id f) k e _ _ (update_round_eq id f e))
      end
    | progress fields ].

(** On a settled run [iterateeCallback] only updates the bookkeeping. *)
Lemma steady_iterateeCallback (id : nat) : steady (iterateeCallback id : M unit).
Proof.
  intros e e' out res Hinv. unfold iterateeCallback.
  destruct (rounds e !! id) as [r0|] eqn:Hr0.
  - assert (settled r0) as [Hloop Hcd] by (eapply Hinv, Hr0).
    exec_in_store.
    assert (forall n, invariant
              (set_rounds (alter (fun r => set_running (r_running r - 1) r) id) n e))
      as Hstep.
    { intros n. apply invariant_alter; [exact Hinv|].
      intros r Hr. assert (r = r0) as -> by congruence. split; assumption. }
    rewrite Hloop. destruct (r_done r0) eqn:Hdone.
    + destruct Hcd as [Hcalled|]; [|discriminate].
      destruct (r_running r0 - 1 <=? 0); cbn [andb negb].
      * exec_in_store. unfold final. exec_in_store. rewrite Hcalled.
        intros Hrun. inversion Hrun; subst.
        apply invariant_alter; [apply Hstep|].
        intros r. cbn [rounds set_rounds]. rewrite lookup_alter_eq, Hr0.
        intros [= <-]. split; [exact Hloop | left; exact Hcalled].
      * intros Hrun. inversion Hrun; subst. apply Hstep.
    + cbn [andb negb]. intros Hrun. inversion Hrun; subst. apply Hstep.
  - rewrite (bind_Ret_nil _ _ _ _ _ (update_round_eq _ _ _)).
    erewrite bind_Stuck
      by (apply get_round_none; cbn [rounds set_rounds];
          rewrite lookup_alter_eq, Hr0; reflexivity).
    intros Hrun. inversion Hrun; subst.
    apply invariant_alter; [exact Hinv|]. intros r Hr. congruence.
Qed.


Ltac steady_known :=
  first
    [ apply steady_call | apply steady__addPeer | apply steady__removePeer
    | apply steady_no_length | apply steady__genRid | apply steady_send
    | apply steady_iterateeCallback | steady_step ].

Lemma steady_run_callback (cb : Callback) (args : list value) :
  steady (run_callback cb args).
Proof.
  destruct cb; cbn [run_callback];
    unfold connect_callback, lookup_callback, publish_callback;
    repeat steady_known.
Qed.

Lemma steady_rid_callback (rid : Z) (obj : Pending) (err data : value) (rinfo2 : Rinfo) :
  steady (rid_callback rid obj err data rinfo2).
Proof.
  unfold rid_callback, clearTimeout.
  repeat first [apply steady_run_callback | steady_known].
Qed.

Lemma steady__handleMessage (data : value) (rinfo : Rinfo) :
  steady (_handleMessage data rinfo).
Proof.
  unfold _handleMessage, _handleResponse, _handleErrorResponse, _handleRequest,
    run_handler, _getRidCallback.
  repeat first [apply steady_rid_callback | steady_known].
Qed.

Lemma steady_fire_timer (h : nat) : steady (fire_timer h).
Proof.
  unfold fire_timer. repeat first [apply steady_run_callback | steady_known].
Qed.

Lemma steady_call_all (ls : list UserFn) (args : list value) : steady (call_all ls args).
Proof.
  induction ls as [|f ls IH]; cbn [call_all]; [apply steady_ret|].
  apply steady_bind; [apply steady_call | intros _; exact IH].
Qed.

Lemma steady_on_message (buf : Buffer) (rinfo : Rinfo) : steady (on_message buf rinfo).
Proof.
  unfold on_message, self_decode, decode, emit.
  apply steady_bind.
  - apply steady_try_catch; [|intros x; apply steady_ret].
    repeat steady_known.
  - intros [data|]; [|apply steady_ret].
    repeat first [apply steady_call_all | apply steady__handleMessage | steady_known].
Qed.

Lemma steady_eachLimit (kind : RoundKind Sig) (coll : list Rinfo)
    (cb : option UserFn) (latest : option Sig) :
  steady (eachLimit kind coll cb latest).
Proof.
  intros e e' out r Hinv Hrun. destruct coll as [|peer peers].
  - destruct (eachLimit_nil kind cb latest e) as (e1 & Heq & _ & _ & _ & Hkeep).
    rewrite Heq in Hrun. inversion Hrun; subst. auto.
  - destruct (eachLimit_cons kind cb latest e peer peers)
      as (e1 & msg & Heq & _ & _ & _ & Hkeep).
    rewrite Heq in Hrun. inversion Hrun; subst. auto.
Qed.

Lemma steady_perform (a : Action Sig) : steady (perform a).
Proof.
  destruct a; cbn [perform].
  - unfold connect. repeat steady_known.
  - unfold lookup. repeat first [apply steady_eachLimit | steady_known].
  - unfold publish. repeat first [apply steady_eachLimit | steady_known].
  - unfold onPublish, on. repeat steady_known.
  - repeat steady_known.
  - apply steady__handleMessage.
  - apply steady_on_message.
  - apply steady_fire_timer.
  - steady_step.
Qed.

(** No instance that arises from a new one has a candidate peer ([_peers]
    is empty and every set recorded for a key is empty), and its registry of
    request handlers still holds the PING handler alone. *)
Lemma reachable_invariant (e : Engine) : reachable e -> invariant e.
Proof.
  induction 1 as [start now | e e' a out r _ IH Hstep].
  - split; [reflexivity|]. split; [reflexivity|]. split; apply map_Forall_empty.
  - eapply steady_perform; eassumption.
Qed.

(** Hence, on every such instance, [lookup] sends nothing and calls back at
    once with the signature it was given, and [publish] sends nothing and
    calls back, if at all, with the count [0]. *)
Lemma lookup_on_reachable (e : Engine) (pk : Buffer) (currentSig : option Sig)
    (cb : option UserFn) :
  reachable e ->
  exists e' : Engine,
    lookup pk currentSig cb e
    = (e',
       match cb with
       | None => []
       | Some f =>
           [Call (fn_id f)
              [VNull; match currentSig with Some s => VSig s | None => VNull end]]
       end,
       Ret tt).
Proof.
  intros Hreach. apply reachable_invariant in Hreach as (_ & Hp & Hv & _).
  unfold lookup. rewrite (bind_Ret_nil get _ e _ _ (get_eq e)).
  assert (match _peersVarsMap e !! hex pk with
          | Some peers => peers
          | None => _peers e
          end = []) as ->.
  { destruct (_peersVarsMap e !! hex pk) as [peers|] eqn:E; [|exact Hp].
    exact (Hv _ _ E). }
  destruct (eachLimit_nil (LookupRound (hex pk) pk) cb currentSig e)
    as (e' & Hrun & _).
  exists e'. exact Hrun.
Qed.

Lemma publish_on_reachable (e : Engine) (sharedVar : SharedVar Sig)
    (cb : option UserFn) :
  reachable e ->
  exists e' : Engine,
    publish sharedVar cb e
    = (e',
       match _peersVarsMap e !! hex (publicKey sharedVar), cb with
       | Some _, Some f => [Call (fn_id f) [VNull; VNum 0]]
       | _, _ => []
       end,
       Ret tt).
Proof.
  intros Hreach. apply reachable_invariant in Hreach as (_ & _ & Hv & _).
  rewrite publish_eq.
  destruct (_peersVarsMap e !! hex (publicKey sharedVar)) as [peers|] eqn:E.
  - rewrite (Hv _ _ E).
    destruct (eachLimit_nil (PublishRound sharedVar (Z.of_nat (length (@nil Rinfo))))
                cb None (set_varsMap <[ hex (publicKey sharedVar) := sharedVar ]> e))
      as (e' & Hrun & _).
    exists e'. rewrite Hrun. destruct cb; reflexivity.
  - eexists. reflexivity.
Qed.

(** * Further properties of the engine *)

(** ** Endpoints and the peer registry *)

Lemma strict_eq_refl (a : prim) : a <> PNaN -> strict_eq a a = true.
Proof.
  destruct a; cbn; intros H; try reflexivity.
  - apply Z.eqb_refl.
  - congruence.
  - apply String.eqb_refl.
Qed.

Lemma strict_eq_NaN_l (b : prim) : strict_eq PNaN b = false.
Proof. destruct b; reflexivity. Qed.

(** X1.  [rinfoEqual] holds of two endpoints exactly when they are the same
    record and neither field is [NaN]; it is symmetric. *)
Theorem rinfoEqual_iff_same_and_no_NaN (a b : Rinfo) :
  (rinfoEqual a b = true <-> a = b /\ address a <> PNaN /\ port a <> PNaN)
  /\ rinfoEqual a b = rinfoEqual b a.
Proof.
  split.
  - split.
    + intros H. pose proof (rinfoEqual_true a b H) as ->.
      unfold rinfoEqual in H. apply andb_true_iff in H as [Ha Hp].
      split; [reflexivity|]. split; intros E; rewrite E in *;
        rewrite strict_eq_NaN_l in *; discriminate.
    + intros (-> & Ha & Hp). unfold rinfoEqual.
      now rewrite !strict_eq_refl.
  - unfold rinfoEqual. f_equal.
    + destruct (address a), (address b); cbn; try reflexivity;
        [apply Z.eqb_sym | apply String.eqb_sym].
    + destruct (port a), (port b); cbn; try reflexivity;
        [apply Z.eqb_sym | apply String.eqb_sym].
Qed.

Lemma _getRidCallback_mismatch (e : Engine) (rid : Z) (obj : Pending) (origin : Rinfo) :
  _rids e !! rid = Some obj ->
  rinfoEqual (p_rinfo obj) origin = false ->
  _getRidCallback (VNum rid) origin e = (e, [], Ret None).
Proof.
  intros Hobj Hne. unfold _getRidCallback, bind, get. cbv beta iota zeta.
  now rewrite Hobj, Hne.
Qed.

(** X2.  A request recorded for an endpoint with a [NaN] field (an address
    that [parseInt] could not read) is matched by no response and no error
    response, whatever their origin: [_handleMessage] leaves the instance
    as it is, the entry included, and calls nothing. *)
Theorem request_for_NaN_endpoint_is_never_resolved
    (e : Engine) (rid t : Z) (obj : Pending) (payload : list value) (origin : Rinfo) :
  _rids e !! rid = Some obj ->
  address (p_rinfo obj) = PNaN \/ port (p_rinfo obj) = PNaN ->
  t <= 0 ->
  _handleMessage (VArr (VNum t :: VNum rid :: payload)) origin e = (e, [], Ret tt).
Proof.
  intros Hobj Hnan Ht. apply resolve_ignored; [exact Ht|].
  apply (_getRidCallback_mismatch e rid obj origin Hobj).
  unfold rinfoEqual. destruct Hnan as [H|H]; rewrite H, strict_eq_NaN_l.
  - reflexivity.
  - apply andb_false_r.
Qed.

Lemma substring_0_0 (s : string) : String.substring 0 0 s = "".
Proof. destruct s; reflexivity. Qed.

(** X3.  A string without a colon, given to [connect] without a numeric
    port, is split at index [-1]: the whole string is read by [parseInt] into
    [address], [port] is the empty string, and the PING is handed to the
    socket with these two values. *)
Theorem parseRinfo_without_colon
    (s : string) (p : PortArg Sig) (cb : option UserFn) (e : Engine) :
  JsString.lastIndexOf s ":" = -1 ->
  (forall n, p <> JNum n) ->
  let rinfo := {| address := parseInt s; port := PStr "" |} in
  parseRinfo (AStr s) p = rinfo
  /\ exists e' : Engine,
       connect (AStr s) p cb e
       = (e', [SocketSend [VNum MSG_TYPE_PING; VNum (_nextRid e)] (PStr "") (parseInt s)],
          Ret tt)
       /\ p_rinfo <$> _rids e' !! _nextRid e = Some rinfo.
Proof.
  intros Hs Hp rinfo.
  assert (parseRinfo (AStr s) p = rinfo) as Hparse.
  { unfold parseRinfo, rinfo. destruct p as [|n|f]; [|destruct (Hp n eq_refl)|];
      rewrite Hs; cbn [Z.add Z.opp Z.pos_sub];
      unfold JsString.substr; cbn [Z.ltb Z.compare Z.max Z.min];
      rewrite ?Z.min_l, ?Z.max_r by lia;
      rewrite ?Z.sub_0_r, ?Nat2Z.id; cbn [Z.to_nat];
      now rewrite substring_all, substring_0_0. }
  split; [exact Hparse|].
  eexists. unfold connect. rewrite Hparse. unfold bind. rewrite _genRid_eq.
  split; [reflexivity|]. cbn [after_genRid _rids set_rids].
  now rewrite lookup_insert_eq.
Qed.

Lemma peer_copy (rinfo : Rinfo) :
  {| address := address rinfo; port := port rinfo |} = rinfo.
Proof. destruct rinfo. reflexivity. Qed.

Lemma _addPeer_eq (rinfo : Rinfo) (e : Engine) :
  _addPeer rinfo e
  = (match _peersMap e !! peer_key rinfo with
     | Some _ => e
     | None => set_peersMap <[ peer_key rinfo := rinfo ]> e
     end, [], Ret tt).
Proof.
  unfold _addPeer, bind, get. cbv beta iota zeta.
  destruct (_peersMap e !! peer_key rinfo); [reflexivity|].
  now rewrite peer_copy.
Qed.

Lemma _removePeer_eq (rinfo : Rinfo) (e : Engine) :
  _removePeer rinfo e
  = (match _peersMap e !! peer_key rinfo with
     | Some _ => set_peersMap (delete (peer_key rinfo)) e
     | None => e
     end, [], Ret tt).
Proof.
  unfold _removePeer, bind, get. cbv beta iota zeta.
  destruct (_peersMap e !! peer_key rinfo); reflexivity.
Qed.

(** X4.  The peer registry: [_addPeer] and [_removePeer] are idempotent,
    [_removePeer] undoes [_addPeer], after [_addPeer] some record is found
    under the endpoint's key (the endpoint itself when the key was free), and
    neither touches the record under any other key. *)
Theorem addPeer_and_removePeer_compose (rinfo : Rinfo) (e : Engine) :
  exists added removed : Engine,
    _addPeer rinfo e = (added, [], Ret tt)
    /\ _removePeer rinfo e = (removed, [], Ret tt)
    /\ _addPeer rinfo added = (added, [], Ret tt)
    /\ _removePeer rinfo removed = (removed, [], Ret tt)
    /\ is_Some (_peersMap added !! peer_key rinfo)
    /\ (_peersMap e !! peer_key rinfo = None ->
        _peersMap added !! peer_key rinfo = Some rinfo)
    /\ _peersMap removed !! peer_key rinfo = None
    /\ (exists gone : Engine,
          _removePeer rinfo added = (gone, [], Ret tt)
          /\ _peersMap gone !! peer_key rinfo = None)
    /\ (forall key, key <> peer_key rinfo ->
          _peersMap added !! key = _peersMap e !! key
          /\ _peersMap removed !! key = _peersMap e !! key).
Proof.
  do 2 eexists. split; [apply _addPeer_eq|]. split; [apply _removePeer_eq|].
  destruct (_peersMap e !! peer_key rinfo) as [p|] eqn:E.
  - split; [rewrite _addPeer_eq, E; reflexivity|].
    split; [rewrite _removePeer_eq; cbn; rewrite lookup_delete_eq; reflexivity|].
    split; [rewrite E; eauto|]. split; [discriminate|].
    split; [cbn; apply lookup_delete_eq|].
    split.
    + eexists. rewrite _removePeer_eq, E. split; [reflexivity|].
      cbn. apply lookup_delete_eq.
    + intros key Hkey. split; [reflexivity|]. cbn.
      now rewrite lookup_delete_ne.
  - split; [rewrite _addPeer_eq; cbn; rewrite lookup_insert_eq; reflexivity|].
    split; [rewrite _removePeer_eq, E; reflexivity|].
    split; [cbn; rewrite lookup_insert_eq; eauto|].
    split; [intros _; cbn; apply lookup_insert_eq|].
    split; [exact E|].
    split.
    + eexists. rewrite _removePeer_eq. cbn. rewrite lookup_insert_eq.
      split; [reflexivity|]. cbn. apply lookup_delete_eq.
    + intros key Hkey. split; [|reflexivity]. cbn.
      now rewrite lookup_insert_ne.
Qed.

(** ** Keys of the value store *)

Lemma hex_digit_inj (a b : N) :
  (a < 16)%N -> (b < 16)%N -> hex_digit a = hex_digit b -> a = b.
Proof.
  unfold hex_digit. intros Ha Hb H.
  apply (f_equal N_of_ascii) in H.
  destruct (N.ltb_spec a 10), (N.ltb_spec b 10);
    rewrite !N_ascii_embedding in H by lia; lia.
Qed.

Lemma byte_to_N_inj (x y : Byte.byte) : Byte.to_N x = Byte.to_N y -> x = y.
Proof.
  intros H. apply (f_equal Byte.of_N) in H.
  rewrite !Byte.of_to_N in H. congruence.
Qed.

Lemma hex_inj (a : Buffer) : forall b : Buffer, hex a = hex b -> a = b.
Proof.
  induction a as [|x a IH]; intros [|y b] H; cbn [hex] in H;
    try discriminate; [reflexivity|].
  injection H as H1 H2 H3.
  pose proof (Byte.to_N_bounded x) as Hx. pose proof (Byte.to_N_bounded y) as Hy.
  apply hex_digit_inj in H1;
    [| apply N.Div0.div_lt_upper_bound; lia | apply N.Div0.div_lt_upper_bound; lia].
  apply hex_digit_inj in H2; [| apply N.mod_lt; lia | apply N.mod_lt; lia].
  f_equal; [|apply IH, H3].
  apply byte_to_N_inj.
  rewrite (N.div_mod' (Byte.to_N x) 16), (N.div_mod' (Byte.to_N y) 16).
  congruence.
Qed.

(** X5.  [publish] writes the slot of its own key and no other: whatever
    was stored under the key is replaced (no comparison of signatures), and
    the value stored under any other public key is the one stored before,
    whether [publish] returns or throws. *)
Theorem publish_writes_only_its_slot
    (e : Engine) (sharedVar : SharedVar Sig) (cb : option UserFn) (pk : Buffer) :
  pk <> publicKey sharedVar ->
  exists (e' : Engine) (out : list (Event Sig)) (r : Res unit),
    publish sharedVar cb e = (e', out, r)
    /\ _varsMap e' !! hex (publicKey sharedVar) = Some sharedVar
    /\ _varsMap e' !! hex pk = _varsMap e !! hex pk.
Proof.
  intros Hpk.
  assert (hex (publicKey sharedVar) <> hex pk) as Hkey
    by (intros H; apply Hpk; symmetry; apply hex_inj, H).
  rewrite publish_eq.
  destruct (_peersVarsMap e !! hex (publicKey sharedVar)) as [[|peer peers]|].
  - destruct (eachLimit_nil (PublishRound sharedVar (Z.of_nat (length (@nil Rinfo))))
                cb None (set_varsMap <[ hex (publicKey sharedVar) := sharedVar ]> e))
      as (e' & Hrun & Hvars & _).
    do 3 eexists. split; [exact Hrun|]. rewrite Hvars. cbn [_varsMap set_varsMap].
    now rewrite lookup_insert_eq, lookup_insert_ne.
  - destruct (eachLimit_cons
                (PublishRound sharedVar (Z.of_nat (length (peer :: peers))))
                cb None (set_varsMap <[ hex (publicKey sharedVar) := sharedVar ]> e)
                peer peers)
      as (e' & msg & Hrun & Hvars & _).
    do 3 eexists. split; [exact Hrun|]. rewrite Hvars. cbn [_varsMap set_varsMap].
    now rewrite lookup_insert_eq, lookup_insert_ne.
  - do 3 eexists. split; [reflexivity|]. cbn [_varsMap set_varsMap].
    now rewrite lookup_insert_eq, lookup_insert_ne.
Qed.

(** ** The request table *)

Lemma rid_seq_length (n : nat) : forall s : Z, length (rid_seq n s) = n.
Proof. induction n as [|n IH]; intros s; cbn; [reflexivity | now rewrite IH]. Qed.

Lemma mod_eq_close (a b m : Z) :
  0 < m -> - m < a - b < m -> a mod m = b mod m -> a = b.
Proof.
  intros Hm Hab H.
  pose proof (Z.div_mod a m ltac:(lia)) as Ha.
  pose proof (Z.div_mod b m ltac:(lia)) as Hb.
  rewrite H in Ha.
  assert (a - b = m * (a / m - b / m)) as Hd by (rewrite Z.mul_sub_distr_l; lia).
  assert (a / m - b / m = 0) as Hq by nia.
  rewrite Hq in Hd. lia.
Qed.

Lemma rid_seq_NoDup (n : nat) (s : Z) :
  0 <= s <= RID_MAX -> Z.of_nat n <= RID_MAX + 1 -> NoDup (rid_seq n s).
Proof.
  intros Hs Hn. apply NoDup_alt. intros i j x Hi Hj.
  pose proof (lookup_lt_Some _ _ _ Hi) as Hil.
  pose proof (lookup_lt_Some _ _ _ Hj) as Hjl.
  rewrite rid_seq_length in Hil, Hjl.
  rewrite rid_seq_lookup in Hi, Hj by assumption.
  assert (s + Z.of_nat i = s + Z.of_nat j); [|lia].
  apply (mod_eq_close _ _ (RID_MAX + 1)); [unfold RID_MAX; lia | lia | congruence].
Qed.

Lemma rid_seq_range (n : nat) : forall s : Z,
  0 <= s <= RID_MAX -> Forall (fun k => 0 <= k <= RID_MAX) (rid_seq n s).
Proof.
  induction n as [|n IH]; intros s Hs; cbn [rid_seq]; constructor;
    [exact Hs | apply IH, wrap_range, Hs].
Qed.

(** X6.  From an instance whose [_nextRid] is an integer of the identifier
    space, up to [RID_MAX + 1] allocations in a row return pairwise distinct
    identifiers, all of them in [0 .. RID_MAX], and leave [_nextRid] in that
    range. *)
Theorem first_allocations_are_distinct
    (e0 : Engine) (rinfo : Rinfo) (cb : Callback) (n : nat) :
  0 <= _nextRid e0 <= RID_MAX ->
  Z.of_nat n <= RID_MAX + 1 ->
  exists (e : Engine) (ids : list Z),
    allocate n rinfo cb e0 = (e, [], Ret ids)
    /\ length ids = n
    /\ NoDup ids
    /\ Forall (fun k => 0 <= k <= RID_MAX) ids
    /\ 0 <= _nextRid e <= RID_MAX.
Proof.
  intros Hs Hn.
  destruct (allocate_eq rinfo cb n e0) as (e & Hrun & Hnext & _).
  exists e, (rid_seq n (_nextRid e0)).
  split; [exact Hrun|]. split; [apply rid_seq_length|].
  split; [apply rid_seq_NoDup; assumption|].
  split; [apply rid_seq_range; assumption|].
  rewrite Hnext, iter_wrap by assumption.
  pose proof (Z.mod_pos_bound (_nextRid e0 + Z.of_nat n) (RID_MAX + 1)).
  unfold RID_MAX in *. lia.
Qed.

Lemma fire_timer_none (h : nat) (e : Engine) :
  timers e !! h = None -> fire_timer h e = (e, [], Ret tt).
Proof.
  intros H. unfold fire_timer, bind, get. cbv beta iota zeta. now rewrite H.
Qed.

Lemma after_genRid_pending (rinfo : Rinfo) (cb : Callback) (e : Engine) :
  _rids (after_genRid rinfo cb e) !! _nextRid e
  = Some {| p_rinfo := rinfo; p_callback := cb; p_timeout := next_timer e |}.
Proof. cbn. apply lookup_insert_eq. Qed.

(** X7.  A request and its answer: after [_genRid(rinfo, f)], a response
    that carries the returned identifier and comes from [rinfo] calls [f]
    once with [(null, payload, rinfo)]; unless [f] returns [true], the entry
    and its timer are gone, so the timer no longer fires and the same
    response, sent again, is ignored. *)
Theorem response_reaches_the_callback_once
    (e : Engine) (rinfo : Rinfo) (f : UserFn) (payload : list value) :
  rinfoEqual rinfo rinfo = true ->
  is_continue (fn_ret f [VNull; VArr payload; VRinfo rinfo]) = false ->
  exists e1 e2 : Engine,
    _genRid rinfo (CbUser f) e = (e1, [], Ret (_nextRid e))
    /\ _handleMessage (VArr (VNum MSG_TYPE_RESPONSE :: VNum (_nextRid e) :: payload))
         rinfo e1
       = (e2, [Call (fn_id f) [VNull; VArr payload; VRinfo rinfo]], Ret tt)
    /\ _rids e2 !! _nextRid e = None
    /\ fire_timer (next_timer e) e2 = (e2, [], Ret tt)
    /\ _handleMessage (VArr (VNum MSG_TYPE_RESPONSE :: VNum (_nextRid e) :: payload))
         rinfo e2
       = (e2, [], Ret tt).
Proof.
  intros Heq Hret.
  pose proof (after_genRid_pending rinfo (CbUser f) e) as Hobj.
  pose proof (_getRidCallback_some _ _ _ rinfo Hobj Heq) as Hcb.
  eexists. eexists. split; [apply _genRid_eq|].
  assert (request_removed (_nextRid e) (next_timer e)
            (set_rids (delete (_nextRid e))
               (set_timers (delete (next_timer e))
                  (next_timer (after_genRid rinfo (CbUser f) e))
                  (after_genRid rinfo (CbUser f) e))))
    as (Hgone & Htimer & Hlater) by apply request_removed_after.
  split.
  - unfold _handleMessage. cbn [is_number andb]. rewrite Z.eqb_refl.
    unfold _handleResponse, bind. rewrite Hcb.
    erewrite rid_callback_eq by reflexivity.
    cbn [p_callback p_timeout truthy negb app]. rewrite Hret. reflexivity.
  - split; [exact Hgone|]. split; [apply fire_timer_none, Htimer|].
    apply Hlater. unfold MSG_TYPE_RESPONSE. lia.
Qed.

(** X8.  A request without an answer: when the timer set by [_genRid] goes
    off, the callback is called once with the error [TIMEOUT] as its only
    argument and the entry is deleted, whatever the callback returns; the
    timer does not fire again and a late response is ignored. *)
Theorem timeout_ends_the_request (e : Engine) (rinfo : Rinfo) (f : UserFn) :
  exists e1 e2 : Engine,
    _genRid rinfo (CbUser f) e = (e1, [], Ret (_nextRid e))
    /\ fire_timer (next_timer e) e1
       = (e2, [Call (fn_id f) [VError (VStr "TIMEOUT") VUndef]], Ret tt)
    /\ _rids e2 !! _nextRid e = None
    /\ fire_timer (next_timer e) e2 = (e2, [], Ret tt)
    /\ (forall (t : Z) (payload : list value) (origin : Rinfo),
          t <= 0 ->
          _handleMessage (VArr (VNum t :: VNum (_nextRid e) :: payload)) origin e2
          = (e2, [], Ret tt)).
Proof.
  eexists. eexists. split; [apply _genRid_eq|].
  assert (request_removed (_nextRid e) (next_timer e)
            (set_rids (delete (_nextRid e))
               (set_timers (delete (next_timer e))
                  (next_timer (after_genRid rinfo (CbUser f) e))
                  (after_genRid rinfo (CbUser f) e))))
    as (Hgone & Htimer & Hlater) by apply request_removed_after.
  split.
  - unfold fire_timer, bind, get. cbv beta iota zeta.
    cbn [after_genRid timers set_rids set_timers set_nextRid].
    rewrite lookup_insert_eq. reflexivity.
  - split; [exact Hgone|]. split; [apply fire_timer_none, Htimer | exact Hlater].
Qed.

(** ** The dispatcher *)

(** X9.  [_handleMessage] drops, without any effect, whatever is not an
    array of at least two elements whose first is a number other than [NaN]
    and whose second is a number. *)
Theorem malformed_messages_are_dropped (e : Engine) (data : value) (rinfo : Rinfo) :
  (forall (type : Z) (rid : value) (rest : list value),
      data = VArr (VNum type :: rid :: rest) -> is_number rid = false) ->
  _handleMessage data rinfo e = (e, [], Ret tt).
Proof.
  intros H. destruct data as [| | | | | | | |l| |]; try reflexivity.
  destruct l as [|type [|rid rest]]; try reflexivity.
  unfold _handleMessage.
  destruct type as [| | |t| | | | | | |]; try reflexivity;
    try (cbn [is_number andb]; destruct (is_number rid); reflexivity).
  rewrite (H t rid rest eq_refl). cbn [is_number andb]. reflexivity.
Qed.

(** X10.  An error response for a pending request, from the endpoint it was
    recorded for, calls the callback with the error [new Error(x)] that
    carries the type as its [code], where [x] is the first element of the
    payload, whatever its type, when this is truthy, and the text
    ["error code: <type>"] otherwise; the callback receives the payload
    without its first element, and the entry is deleted. *)
Theorem error_response_reaches_the_callback
    (e : Engine) (rid code : Z) (obj : Pending) (f : UserFn)
    (origin : Rinfo) (payload : list value) :
  _rids e !! rid = Some obj ->
  p_callback obj = CbUser f ->
  rinfoEqual (p_rinfo obj) origin = true ->
  code < 0 ->
  exists e2 : Engine,
    _handleMessage (VArr (VNum code :: VNum rid :: payload)) origin e
    = (e2,
       [Call (fn_id f)
          [VError
             match payload with
             | m :: _ => if truthy m then m else VStr ("error code: " +:+ pretty code)
             | [] => VStr ("error code: " +:+ pretty code)
             end
             (VNum code);
           VArr (tl payload);
           VRinfo origin]],
       Ret tt)
    /\ _rids e2 !! rid = None
    /\ timers e2 !! p_timeout obj = None.
Proof.
  intros Hobj Hcb Heq Hcode.
  pose proof (_getRidCallback_some e rid obj origin Hobj Heq) as Hget.
  eexists. split.
  - unfold _handleMessage. cbn [is_number andb]. unfold MSG_TYPE_RESPONSE.
    destruct (Z.eqb_spec code 0) as [|_]; [lia|].
    destruct (Z.gtb_spec code 0) as [|_]; [lia|].
    destruct (Z.ltb_spec code 0) as [_|]; [|lia].
    unfold _handleErrorResponse, bind. rewrite Hget.
    erewrite rid_callback_eq by (rewrite Hcb; reflexivity).
    unfold response_error. cbn [truthy negb app]. rewrite andb_false_r.
    destruct payload as [|m rest]; reflexivity.
  - cbn. split; apply lookup_delete_eq.
Qed.

(** ** [connect] without a callback *)

Lemma bind_Ret_out {A B} (m : M A) (k : A -> M B) (e e1 e2 : Engine) (a : A)
    (out1 out2 : list (Event Sig)) (r : Res B) :
  m e = (e1, out1, Ret a) -> k a e1 = (e2, out2, r) ->
  bind m k e = (e2, out1 ++ out2, r).
Proof. intros Hm Hk. unfold bind. now rewrite Hm, Hk. Qed.

(** X11.  [connect(address, port)] with a numeric port other than [0] and
    no callback: the default [callback = port] makes the closure call
    [port.call], so a response from the peer throws a [TypeError] once the
    peer is added, and the request stays pending; when its timer goes off
    the peer is removed again and the same [TypeError] is thrown. *)
Theorem connect_without_callback_throws_on_the_answer
    (start now p : Z) (a : string) (payload : list value) :
  p <> 0 ->
  let rinfo := {| address := PStr a; port := PNum p |} in
  exists e1 e2 e3 : Engine,
    connect (AStr a) (JNum p) None (constructor start now)
    = (e1, [SocketSend [VNum MSG_TYPE_PING; VNum start] (PNum p) (PStr a)], Ret tt)
    /\ _handleMessage (VArr (VNum MSG_TYPE_RESPONSE :: VNum start :: payload)) rinfo e1
       = (e2, [], Throw (TypeError "callback.call is not a function"))
    /\ _peersMap e2 !! peer_key rinfo = Some rinfo
    /\ is_Some (_rids e2 !! start)
    /\ fire_timer 0 e2 = (e3, [], Throw (TypeError "callback.call is not a function"))
    /\ _peersMap e3 !! peer_key rinfo = None
    /\ _rids e3 !! start = None.
Proof.
  intros Hp rinfo.
  assert (rinfoEqual rinfo rinfo = true) as Heq.
  { unfold rinfoEqual, rinfo. cbn. now rewrite String.eqb_refl, Z.eqb_refl. }
  assert ((p =? 0) = false) as Hp0 by (apply Z.eqb_neq, Hp).
  set (e0 := constructor start now : Engine).
  set (cb := CbConnect rinfo (JNum p) : Callback).
  set (e1 := after_genRid rinfo cb e0).
  set (e2 := set_peersMap <[ peer_key rinfo := rinfo ]> e1).
  assert (run_callback cb [VNull; VArr payload; VRinfo rinfo] e1
          = (e2, [], Throw (TypeError "callback.call is not a function"))) as Hrun.
  { unfold cb. cbn [run_callback arg nth]. unfold connect_callback.
    cbn [truthy]. unfold bind. rewrite _addPeer_eq.
    change (_peersMap e1 !! peer_key rinfo)
      with ((∅ : gmap string Rinfo) !! peer_key rinfo).
    rewrite lookup_empty. fold e2. now rewrite Hp0. }
  assert (run_callback cb [VError (VStr "TIMEOUT") VUndef]
            (set_rids (delete start) (set_timers (delete 0%nat) 1%nat e2))
          = (set_peersMap (delete (peer_key rinfo))
               (set_rids (delete start) (set_timers (delete 0%nat) 1%nat e2)),
             [], Throw (TypeError "callback.call is not a function"))) as Hrun'.
  { unfold cb. cbn [run_callback arg nth]. unfold connect_callback.
    cbn [truthy]. unfold bind. rewrite _removePeer_eq.
    cbn [_peersMap set_rids set_timers set_peersMap e2].
    rewrite lookup_insert_eq. now rewrite Hp0. }
  exists e1, e2. eexists.
  split; [unfold connect; cbn [parseRinfo]; unfold bind; rewrite _genRid_eq;
          reflexivity|].
  split.
  { unfold _handleMessage. cbn [is_number andb]. rewrite Z.eqb_refl.
    unfold _handleResponse.
    erewrite bind_Ret_nil
      by (apply _getRidCallback_some; [apply after_genRid_pending | exact Heq]).
    unfold rid_callback. erewrite bind_Throw by exact Hrun. reflexivity. }
  split; [cbn; apply lookup_insert_eq|].
  split; [change (_rids e2 !! start)
            with (_rids (after_genRid rinfo cb e0) !! _nextRid e0);
          rewrite after_genRid_pending; eauto|].
  split.
  { unfold fire_timer.
    rewrite (bind_Ret_nil get _ _ _ _ (get_eq e2)).
    change (timers e2 !! 0%nat)
      with (<[ 0%nat := {| t_rid := start; t_callback := cb |} ]>
              (∅ : gmap nat (Timer Sig)) !! 0%nat).
    rewrite lookup_insert_eq.
    rewrite (bind_Ret_nil (modify _) _ _ _ _ (modify_eq _ _)).
    rewrite (bind_Ret_nil (modify _) _ _ _ _ (modify_eq _ _)).
    cbn [t_rid t_callback next_timer e2 set_peersMap].
    erewrite bind_Throw by exact Hrun'. reflexivity. }
  split; cbn; apply lookup_delete_eq.
Qed.

(** ** What the methods maintain *)

Section Maintained.

Variable I : Engine -> Prop.

Lemma maintains_ret {A} (a : A) : maintains I (ret a : M A).
Proof. intros e e' out r H Hm. inversion Hm; subst. exact H. Qed.

Lemma maintains_get : maintains I (get : M Engine).
Proof. intros e e' out r H Hm. inversion Hm; subst. exact H. Qed.

Lemma maintains_tell (ev : Event Sig) : maintains I (tell ev).
Proof. intros e e' out r H Hm. inversion Hm; subst. exact H. Qed.

Lemma maintains_throw {A} (x : Exn) : maintains I (throw x : M A).
Proof. intros e e' out r H Hm. inversion Hm; subst. exact H. Qed.

Lemma maintains_stuck {A} : maintains I (stuck : M A).
Proof. intros e e' out r H Hm. inversion Hm; subst. exact H. Qed.

Lemma maintains_modify (f : Engine -> Engine) :
  (forall e, I e -> I (f e)) -> maintains I (modify f).
Proof. intros Hf e e' out r H Hm. inversion Hm; subst. auto. Qed.

Lemma maintains_bind {A B} (m : M A) (k : A -> M B) :
  maintains I m -> (forall a, maintains I (k a)) -> maintains I (bind m k).
Proof.
  intros Hm Hk e e' out r H Hrun. unfold bind in Hrun.
  destruct (m e) as [[e1 out1] [a| |]] eqn:Em.
  - destruct (k a e1) as [[e2 out2] r2] eqn:Ek. inversion Hrun; subst.
    eapply Hk; [eapply Hm|]; eassumption.
  - inversion Hrun; subst. eapply Hm; eassumption.
  - inversion Hrun; subst. eapply Hm; eassumption.
Qed.

Lemma maintains_try_catch {A} (m : M A) (h : Exn -> M A) :
  maintains I m -> (forall x, maintains I (h x)) -> maintains I (try_catch m h).
Proof.
  intros Hm Hh e e' out r H Hrun. unfold try_catch in Hrun.
  destruct (m e) as [[e1 out1] [a| |]] eqn:Em.
  - inversion Hrun; subst. eapply Hm; eassumption.
  - destruct (h x e1) as [[e2 out2] r2] eqn:Eh. inversion Hrun; subst.
    eapply Hh; [eapply Hm|]; eassumption.
  - inversion Hrun; subst. eapply Hm; eassumption.
Qed.

Hypothesis HpeersMap : forall g e, I e -> I (set_peersMap g e).
Hypothesis HpeersVarsMap : forall g e, I e -> I (set_peersVarsMap g e).
Hypothesis Hrounds : forall g n e, I e -> I (set_rounds g n e).
Hypothesis Hgen : forall rinfo cb, maintains I (_genRid rinfo cb).

Ltac m_step :=
  first
    [ apply maintains_ret | apply maintains_get | apply maintains_tell
    | apply maintains_throw | apply maintains_stuck
    | apply Hgen
    | apply maintains_modify; intros ? ?;
      first [apply HpeersMap | apply HpeersVarsMap | apply Hrounds]; assumption
    | apply maintains_bind; [| intros ?]
    | match goal with
      | |- maintains _ (match ?x with _ => _ end) => destruct x
      | |- maintains _ (let _ := _ in _) => cbv zeta
      end ].

Lemma maintains_call (f : UserFn) (args : list value) : maintains I (call f args).
Proof. unfold call. repeat m_step. Qed.

Lemma maintains_send (data : list value) (a : option AddrArg) (p : PortArg Sig) :
  maintains I (send data a p).
Proof.
  unfold send. destruct a as [a|]; [|apply maintains_throw].
  destruct (parseRinfo a p). apply maintains_tell.
Qed.

Lemma maintains_get_round (id : nat) : maintains I (get_round id : M (Round Sig)).
Proof. unfold get_round. repeat m_step. Qed.

Lemma maintains_update_round (id : nat) (g : Round Sig -> Round Sig) :
  maintains I (update_round id g).
Proof. unfold update_round. repeat m_step. Qed.

Lemma maintains_final (id : nat) : maintains I (final id : M unit).
Proof.
  unfold final.
  repeat first [apply maintains_get_round | apply maintains_update_round
               | apply maintains_call | m_step].
Qed.

Lemma maintains_iteratee (id : nat) (peer : Rinfo) :
  maintains I (iteratee id peer : M unit).
Proof.
  unfold iteratee.
  repeat first [apply maintains_get_round | apply maintains_send | m_step].
Qed.

Lemma maintains_replenish_loop (id : nat) (items : list Rinfo) :
  maintains I (replenish_loop items id : M unit).
Proof.
  induction items as [|elem rest IH]; cbn [replenish_loop];
    repeat first [exact IH | apply maintains_get_round | apply maintains_update_round
                 | apply maintains_final | apply maintains_iteratee | m_step].
Qed.

Lemma maintains_replenish (id : nat) : maintains I (replenish id : M unit).
Proof.
  unfold replenish.
  repeat first [apply maintains_get_round | apply maintains_update_round
               | apply maintains_replenish_loop | m_step].
Qed.

Lemma maintains_iterateeCallback (id : nat) : maintains I (iterateeCallback id : M unit).
Proof.
  unfold iterateeCallback.
  repeat first [apply maintains_get_round | apply maintains_update_round
               | apply maintains_final | apply maintains_replenish | m_step].
Qed.

Lemma maintains_eachLimit (kind : RoundKind Sig) (coll : list Rinfo)
    (cb : option UserFn) (latest : option Sig) :
  maintains I (eachLimit kind coll cb latest).
Proof. unfold eachLimit. repeat first [apply maintains_replenish | m_step]. Qed.

Lemma maintains__addPeer (rinfo : Rinfo) : maintains I (_addPeer rinfo : M unit).
Proof. unfold _addPeer. repeat m_step. Qed.

Lemma maintains__removePeer (rinfo : Rinfo) : maintains I (_removePeer rinfo : M unit).
Proof. unfold _removePeer. repeat m_step. Qed.

Lemma maintains_no_length (data : value) : maintains I (no_length data).
Proof. unfold no_length. repeat m_step. Qed.

Lemma maintains_run_callback (cb : Callback) (args : list value) :
  maintains I (run_callback cb args).
Proof.
  destruct cb; cbn [run_callback];
    unfold connect_callback, lookup_callback, publish_callback;
    repeat first [apply maintains_get_round | apply maintains_update_round
                 | apply maintains_call | apply maintains__addPeer
                 | apply maintains__removePeer | apply maintains_iterateeCallback
                 | apply maintains_no_length | m_step].
Qed.

Lemma maintains_connect (address : AddrArg) (p : PortArg Sig) (cb : option UserFn) :
  maintains I (connect address p cb).
Proof. unfold connect. repeat first [apply maintains_send | m_step]. Qed.

Lemma maintains_lookup (pk : Buffer) (currentSig : option Sig) (cb : option UserFn) :
  maintains I (lookup pk currentSig cb).
Proof. unfold lookup. repeat first [apply maintains_eachLimit | m_step]. Qed.

Lemma maintains_publish (sharedVar : SharedVar Sig) (cb : option UserFn) :
  (forall g e, I e -> I (set_varsMap g e)) ->
  maintains I (publish sharedVar cb).
Proof.
  intros Hvars. unfold publish.
  apply maintains_bind; [apply maintains_modify; intros e He; apply Hvars, He|].
  intros _. repeat first [apply maintains_eachLimit | m_step].
Qed.

Lemma maintains_onPublish (pk : Buffer) (listener : UserFn) :
  (forall g e, I e -> I (set_events g e)) ->
  maintains I (onPublish pk listener).
Proof.
  intros Hevents. unfold onPublish, on.
  apply maintains_modify. intros e He. apply Hevents, He.
Qed.

Lemma maintains_on_message_from (buf : Buffer) (rinfo : Rinfo) :
  (forall data, maintains I (_handleMessage data rinfo)) ->
  maintains I (on_message buf rinfo).
Proof.
  intros Hmsg. unfold on_message, self_decode, decode, emit.
  apply maintains_bind.
  - apply maintains_try_catch; [|intros x; apply maintains_ret].
    repeat m_step.
  - intros [data|]; [|apply maintains_ret].
    apply maintains_bind; [|intros _; apply Hmsg].
    apply maintains_bind; [apply maintains_get|]. intros e0.
    assert (forall ls args, maintains I (call_all ls args : M unit)) as Hall.
    { induction ls as [|f ls IH]; intros args; cbn [call_all]; [apply maintains_ret|].
      apply maintains_bind; [apply maintains_call | intros _; apply IH]. }
    destruct (_events e0 !! "message") as [[|f ls]|]; repeat first [apply Hall | m_step].
Qed.

(** Where a closure of [_getRidCallback] and a timer fit in. *)
Hypothesis Hresolve :
  forall rid obj err data rinfo2 e e' out r,
    I e -> _rids e !! rid = Some obj ->
    rid_callback rid obj err data rinfo2 e = (e', out, r) -> I e'.
Hypothesis Hfire : forall h, maintains I (fire_timer h).
Hypothesis Hclock : forall now e, I e -> I (set_clock now e).

Lemma maintains_resolve (rid : value) (rinfo : Rinfo)
    (k : option (Z * Pending) -> M unit) :
  (forall n obj e e' out r,
      I e -> _rids e !! n = Some obj -> k (Some (n, obj)) e = (e', out, r) -> I e') ->
  maintains I (k None) ->
  maintains I (bind (_getRidCallback rid rinfo) k).
Proof.
  intros Hsome Hnone e e' out r HI Hrun.
  assert (exists x, _getRidCallback rid rinfo e = (e, [], Ret x)
                    /\ forall n obj, x = Some (n, obj) -> _rids e !! n = Some obj)
    as (x & Hget & Hx).
  { unfold _getRidCallback, bind, get. cbv beta iota zeta.
    destruct rid as [| | |n| | | | | | |];
      try (eexists; split; [reflexivity | discriminate]).
    destruct (_rids e !! n) as [obj|] eqn:E;
      [|eexists; split; [reflexivity | discriminate]].
    destruct (rinfoEqual (p_rinfo obj) rinfo);
      eexists; (split; [reflexivity|]); [|discriminate].
    intros n' obj' [= <- <-]. exact E. }
  rewrite (bind_Ret_nil _ _ _ _ _ Hget) in Hrun.
  destruct x as [[n obj]|]; [eapply Hsome; eauto | eapply Hnone; eauto].
Qed.

Lemma maintains__handleMessage (data : value) (rinfo : Rinfo) :
  maintains I (_handleMessage data rinfo).
Proof.
  unfold _handleMessage, _handleResponse, _handleErrorResponse, _handleRequest,
    run_handler.
  repeat first
    [ apply maintains_resolve;
      [intros ? ? ? ? ? ? ? ? ?; eapply Hresolve; eassumption
      | apply maintains_ret]
    | apply maintains_send | m_step ].
Qed.

Lemma maintains_perform (a : Action Sig) :
  (forall sharedVar cb, a = DoPublish sharedVar cb ->
     forall g e, I e -> I (set_varsMap g e)) ->
  (forall pk listener, a = DoOnPublish pk listener ->
     forall g e, I e -> I (set_events g e)) ->
  maintains I (perform a).
Proof.
  intros Hvars Hevents. destruct a; cbn [perform].
  - apply maintains_connect.
  - apply maintains_lookup.
  - apply maintains_publish. eapply Hvars. reflexivity.
  - apply maintains_onPublish. eapply Hevents. reflexivity.
  - repeat m_step.
  - apply maintains__handleMessage.
  - apply maintains_on_message_from. intros data. apply maintains__handleMessage.
  - apply Hfire.
  - apply maintains_modify. intros e He. apply Hclock, He.
Qed.

End Maintained.

(** ** What changes which part of the instance *)

(** A property that the setters of the timers, the peers, the rounds and
    the clock maintain, as do the registration of a request by [_genRid] and
    the deletion of one, is maintained by every action; [publish] has to
    maintain it over the store as well, [onPublish] over the listeners. *)
Lemma maintains_perform_frame (I : Engine -> Prop) (a : Action Sig) :
  (forall g e, I e -> I (set_peersMap g e)) ->
  (forall g e, I e -> I (set_peersVarsMap g e)) ->
  (forall g n e, I e -> I (set_rounds g n e)) ->
  (forall rid e, I e -> I (set_rids (delete rid) e)) ->
  (forall g n e, I e -> I (set_timers g n e)) ->
  (forall rinfo cb e, I e -> I (after_genRid rinfo cb e)) ->
  (forall now e, I e -> I (set_clock now e)) ->
  (forall sharedVar cb, a = DoPublish sharedVar cb ->
     forall g e, I e -> I (set_varsMap g e)) ->
  (forall pk listener, a = DoOnPublish pk listener ->
     forall g e, I e -> I (set_events g e)) ->
  maintains I (perform a).
Proof.
  intros HpeersMap HpeersVarsMap Hrounds Hrids Htimers Hafter Hclock Hvars Hevents.
  assert (forall rinfo cb, maintains I (_genRid rinfo cb)) as Hgen.
  { intros rinfo cb e e' out r HI Hrun. rewrite _genRid_eq in Hrun.
    injection Hrun as <- _ _. apply Hafter, HI. }
  assert (forall cb args, maintains I (run_callback cb args)) as Hcb
    by (intros; apply maintains_run_callback; assumption).
  apply maintains_perform; try assumption.
  - intros rid obj err data rinfo2 e e' out r HI _ Hrun.
    revert e e' out r HI Hrun.
    change (maintains I (rid_callback rid obj err data rinfo2)).
    unfold rid_callback, clearTimeout.
    apply maintains_bind; [apply Hcb|]. intros v.
    match goal with |- maintains _ (if ?c then _ else _) => destruct c end;
      [apply maintains_ret|].
    apply maintains_bind.
    + apply maintains_bind; [apply maintains_get|]. intros e0.
      apply maintains_modify. intros e1 H1. apply Htimers, H1.
    + intros _. apply maintains_modify. intros e1 H1. apply Hrids, H1.
  - intros h. unfold fire_timer.
    apply maintains_bind; [apply maintains_get|]. intros e0.
    destruct (timers e0 !! h) as [t|]; [|apply maintains_ret].
    apply maintains_bind;
      [apply maintains_modify; intros e1 H1; apply Htimers, H1|]. intros _.
    apply maintains_bind;
      [apply maintains_modify; intros e1 H1; apply Hrids, H1|]. intros _.
    apply maintains_bind; [apply Hcb|]. intros _. apply maintains_ret.
Qed.

(** X12.  The value store is written by [publish] alone and the listeners are
    changed by [onPublish] alone: no other method, no inbound message, no
    datagram and no timer touches them.  Nothing at all changes [_peers] or
    the registry of request handlers. *)
Theorem actions_leave_store_and_listeners
    (a : Action Sig) (e e' : Engine) (out : list (Event Sig)) (r : Res unit) :
  perform a e = (e', out, r) ->
  ((forall sharedVar cb, a <> DoPublish sharedVar cb) -> _varsMap e' = _varsMap e)
  /\ ((forall pk listener, a <> DoOnPublish pk listener) -> _events e' = _events e)
  /\ _peers e' = _peers e
  /\ _requestTypesMap e' = _requestTypesMap e.
Proof.
  intros Hrun.
  split; [|split; [|split]].
  - intros Hne.
    refine (maintains_perform_frame (fun x => _varsMap x = _varsMap e) a
              _ _ _ _ _ _ _ _ _ e e' out r eq_refl Hrun);
      try (intros; assumption).
    intros sharedVar cb ->. destruct (Hne sharedVar cb eq_refl).
  - intros Hne.
    refine (maintains_perform_frame (fun x => _events x = _events e) a
              _ _ _ _ _ _ _ _ _ e e' out r eq_refl Hrun);
      try (intros; assumption).
    intros pk listener ->. destruct (Hne pk listener eq_refl).
  - refine (maintains_perform_frame (fun x => _peers x = _peers e) a
              _ _ _ _ _ _ _ _ _ e e' out r eq_refl Hrun);
      intros; assumption.
  - refine (maintains_perform_frame
              (fun x => _requestTypesMap x = _requestTypesMap e) a
              _ _ _ _ _ _ _ _ _ e e' out r eq_refl Hrun);
      intros; assumption.
Qed.

(** X13.  The identifiers stay in the identifier space: when [_nextRid]
    and the identifiers of the pending requests lie in [0 .. RID_MAX], they
    still do after any action, whether it returns or throws. *)
Theorem identifiers_stay_in_range
    (a : Action Sig) (e e' : Engine) (out : list (Event Sig)) (r : Res unit) :
  perform a e = (e', out, r) ->
  0 <= _nextRid e <= RID_MAX ->
  (forall rid, is_Some (_rids e !! rid) -> 0 <= rid <= RID_MAX) ->
  0 <= _nextRid e' <= RID_MAX
  /\ (forall rid, is_Some (_rids e' !! rid) -> 0 <= rid <= RID_MAX).
Proof.
  intros Hrun Hnext Hrids.
  refine (maintains_perform_frame
            (fun x => 0 <= _nextRid x <= RID_MAX
                      /\ forall rid, is_Some (_rids x !! rid) -> 0 <= rid <= RID_MAX)
            a _ _ _ _ _ _ _ _ _ e e' out r (conj Hnext Hrids) Hrun);
    try (intros; assumption).
  - intros rid e0 [H1 H2]. split; [exact H1|].
    intros rid'. cbn [_rids set_rids]. intros [obj Hobj].
    apply lookup_delete_Some in Hobj as [_ Hobj]. apply H2. eauto.
  - intros rinfo cb e0 [H1 H2]. unfold after_genRid. fields.
    split; [apply wrap_range, H1|].
    intros rid. destruct (decide (_nextRid e0 = rid)) as [<-|Hne]; [intros _; exact H1|].
    rewrite lookup_insert_ne by assumption. apply H2.
Qed.

(** ** Requests and their timers *)

Lemma timers_armed_after_genRid (rinfo : Rinfo) (cb : Callback) (e : Engine) :
  timers_armed e -> timers_armed (after_genRid rinfo cb e).
Proof.
  intros [Hreq Hlt]. split.
  - intros rid obj. unfold after_genRid. fields.
    destruct (decide (_nextRid e = rid)) as [<-|Hne].
    + rewrite lookup_insert_eq. intros [= <-]. cbn [p_timeout p_callback].
      rewrite lookup_insert_eq. reflexivity.
    + rewrite lookup_insert_ne by assumption. intros Hobj.
      pose proof (Hreq _ _ Hobj) as Ht. pose proof (Hlt _ _ Ht) as Hh.
      rewrite lookup_insert_ne by lia. exact Ht.
  - intros h t. unfold after_genRid. fields.
    destruct (decide (next_timer e = h)) as [<-|Hne]; [lia|].
    rewrite lookup_insert_ne by assumption. intros Ht.
    specialize (Hlt _ _ Ht). lia.
Qed.

(** With its timer and its entry removed, the other requests keep theirs. *)
Lemma timers_armed_removed (rid : Z) (h : nat) (e : Engine) :
  timers_armed e ->
  (forall t, timers e !! h = Some t -> t_rid t = rid) ->
  timers_armed (set_rids (delete rid) (set_timers (delete h) (next_timer e) e)).
Proof.
  intros [Hreq Hlt] Hown. split.
  - intros rid' obj'. fields.
    destruct (decide (rid = rid')) as [<-|Hne];
      [rewrite lookup_delete_eq; discriminate|].
    rewrite lookup_delete_ne by assumption. intros Hobj'.
    pose proof (Hreq _ _ Hobj') as Ht.
    destruct (decide (h = p_timeout obj')) as [Heq|Hne'].
    + rewrite <- Heq in Ht. apply Hown in Ht. cbn [t_rid] in Ht. congruence.
    + rewrite lookup_delete_ne by assumption. exact Ht.
  - intros h' t. fields. intros Ht.
    apply lookup_delete_Some in Ht as [_ Ht]. eapply Hlt. exact Ht.
Qed.

Lemma timers_armed__genRid (rinfo : Rinfo) (cb : Callback) :
  maintains timers_armed (_genRid rinfo cb).
Proof.
  intros e e' out r H Hrun. rewrite _genRid_eq in Hrun. injection Hrun as <- _ _.
  apply timers_armed_after_genRid, H.
Qed.

Lemma timers_armed_run_callback (cb : Callback) (args : list value) :
  maintains timers_armed (run_callback cb args).
Proof.
  apply maintains_run_callback;
    [intros g e H; exact H | intros g e H; exact H | intros g n e H; exact H
    | apply timers_armed__genRid].
Qed.

(** While a callback runs, the timer [h] stays the one of [rid]: new timers
    take new handles. *)
Lemma timer_owned_run_callback (h : nat) (rid : Z) (cb : Callback) (args : list value) :
  maintains
    (fun e => timers_armed e /\ (h < next_timer e)%nat
              /\ forall t, timers e !! h = Some t -> t_rid t = rid)
    (run_callback cb args).
Proof.
  apply maintains_run_callback;
    [intros g e H; exact H | intros g e H; exact H | intros g n e H; exact H|].
  intros rinfo cb' e e' out r (Harmed & Hlt & Hown) Hrun.
  rewrite _genRid_eq in Hrun. injection Hrun as <- _ _.
  split; [apply timers_armed_after_genRid, Harmed|].
  unfold after_genRid. fields. split; [lia|].
  intros t. rewrite lookup_insert_ne by lia. apply Hown.
Qed.

Lemma timers_armed_rid_callback (rid : Z) (obj : Pending) (err data : value)
    (rinfo2 : Rinfo) (e e' : Engine) (out : list (Event Sig)) (r : Res unit) :
  timers_armed e -> _rids e !! rid = Some obj ->
  rid_callback rid obj err data rinfo2 e = (e', out, r) -> timers_armed e'.
Proof.
  intros Harmed Hobj Hrun.
  assert (timers_armed e /\ (p_timeout obj < next_timer e)%nat
          /\ forall t, timers e !! p_timeout obj = Some t -> t_rid t = rid) as HJ.
  { split; [exact Harmed|]. destruct Harmed as [Hreq Hlt].
    pose proof (Hreq _ _ Hobj) as Ht. split; [eapply Hlt; exact Ht|].
    intros t Ht'. rewrite Ht in Ht'. injection Ht' as <-. reflexivity. }
  unfold rid_callback, bind in Hrun.
  destruct (run_callback (p_callback obj) [err; data; VRinfo rinfo2] e)
    as [[e1 out1] [v| |]] eqn:Ecb;
    pose proof (timer_owned_run_callback (p_timeout obj) rid _ _ _ _ _ _ HJ Ecb)
      as (Harmed1 & _ & Hown1).
  - destruct (match v with VBool true => negb (truthy err) | _ => false end).
    + cbv [ret] in Hrun. injection Hrun as <- _ _. exact Harmed1.
    + cbv beta iota zeta delta [clearTimeout bind get modify] in Hrun.
      injection Hrun as <- _ _. apply timers_armed_removed; assumption.
  - injection Hrun as <- _ _. exact Harmed1.
  - injection Hrun as <- _ _. exact Harmed1.
Qed.

Lemma timers_armed_fire_timer (h : nat) : maintains timers_armed (fire_timer h).
Proof.
  intros e e' out r Harmed Hrun. unfold fire_timer in Hrun.
  rewrite (bind_Ret_nil get _ e _ _ (get_eq e)) in Hrun.
  destruct (timers e !! h) as [t|] eqn:Et;
    [|injection Hrun as <- _ _; exact Harmed].
  rewrite (bind_Ret_nil (modify _) _ _ _ _ (modify_eq _ _)) in Hrun.
  rewrite (bind_Ret_nil (modify _) _ _ _ _ (modify_eq _ _)) in Hrun.
  eapply (maintains_bind timers_armed);
    [apply timers_armed_run_callback | intros v; apply maintains_ret | | exact Hrun].
  apply timers_armed_removed; [exact Harmed|].
  intros t' Ht'. rewrite Et in Ht'. injection Ht' as <-. reflexivity.
Qed.

(** X14.  However an instance is driven, every pending request has its timer:
    the handle recorded in the entry is that of a timer that is set, and
    the timer removes this request and calls this request's callback.
    This holds although [_genRid] overwrites a pending entry when its
    identifier comes round again. *)
Theorem pending_requests_keep_their_timers (e : Engine) :
  reachable e ->
  forall (rid : Z) (obj : Pending),
    _rids e !! rid = Some obj ->
    timers e !! p_timeout obj
    = Some {| t_rid := rid; t_callback := p_callback obj |}.
Proof.
  intros Hreach.
  enough (timers_armed e) as [Hreq _] by exact Hreq.
  induction Hreach as [start now | e e' a out r _ IH Hstep].
  - split; intros ? ? H; cbn in H; rewrite lookup_empty in H; discriminate.
  - revert e e' out r IH Hstep. change (maintains timers_armed (perform a)).
    apply maintains_perform;
      try (intros; assumption).
    + apply timers_armed__genRid.
    + apply timers_armed_rid_callback.
    + apply timers_armed_fire_timer.
Qed.

(** ** The closures of [lookup] and [publish] over the answers *)






End Properties.

(** * The statements at concrete inputs *)

Section Instances.

Local Open Scope js_scope.

(** On a fresh instance with start offset [0] the allocations of C1 run as
    stated. *)
Lemma getNextRid_returns_live_identifier_at_0 :
  0 <= _nextRid fresh <= RID_MAX
  /\ exists (e e' : Engine TestSig) (ids : list Z),
       allocate (Z.to_nat (RID_MAX + 1)) peerA (CbUser (constant_fn 1 VUndef)) fresh
       = (e, [], Ret ids)
       /\ (forall k, 0 <= k <= RID_MAX -> is_Some (_rids e !! k))
       /\ head ids = Some 0
       /\ _genRid peerA (CbUser (constant_fn 1 VUndef)) e = (e', [], Ret 0).
Proof.
  assert (0 <= _nextRid fresh <= RID_MAX) as H by (cbn; unfold RID_MAX; lia).
  split; [exact H|].
  exact (getNextRid_returns_live_identifier fresh peerA
           (CbUser (constant_fn 1 VUndef)) H).
Defined.

(** C3, the claim at a concrete input: a value is stored for [key1], a GET
    for [key1] arrives, and the answer is not a RESPONSE that carries the
    value but the error "Unknown request type". *)
Lemma get_request_for_stored_value_is_refused :
  exists e : Engine TestSig,
    publish var1 None fresh = (e, [], Ret tt)
    /\ _varsMap e !! hex key1 = Some var1
    /\ _handleMessage (VArr [VNum MSG_TYPE_GET; VNum 7; VBuf key1]) peerA e
       = (e,
          [SocketSend [VNum (-1); VNum 7; VStr "Unknown request type"]
             (PNum 4000) (PStr "10.0.0.1")],
          Ret tt)
    /\ ~ (exists (e' : Engine TestSig) (payload : list (value TestSig)),
            _handleMessage (VArr [VNum MSG_TYPE_GET; VNum 7; VBuf key1]) peerA e
            = (e',
               [SocketSend (VNum MSG_TYPE_RESPONSE :: VNum 7 :: payload)
                  (PNum 4000) (PStr "10.0.0.1")],
               Ret tt)).
Proof.
  exists (set_varsMap <[ hex key1 := var1 ]> fresh).
  split; [reflexivity|]. split; [reflexivity|].
  assert (_handleMessage (VArr [VNum MSG_TYPE_GET; VNum 7; VBuf key1]) peerA
            (set_varsMap <[ hex key1 := var1 ]> fresh)
          = (set_varsMap <[ hex key1 := var1 ]> fresh,
             [SocketSend [VNum (-1); VNum 7; VStr "Unknown request type"]
                (PNum 4000) (PStr "10.0.0.1")],
             Ret tt)) as Hrun by reflexivity.
  split; [exact Hrun|].
  intros (e' & payload & Hclaim). rewrite Hrun in Hclaim. discriminate Hclaim.
Qed.

Lemma requests_other_than_ping_are_refused_at_get :
  _requestTypesMap fresh = _requestTypesMap (constructor 0 0 : Engine TestSig)
  /\ 0 < MSG_TYPE_GET
  /\ _handleMessage (VArr [VNum MSG_TYPE_GET; VNum 7; VBuf key1]) peerA fresh
     = (fresh,
        [SocketSend
           (if MSG_TYPE_GET =? MSG_TYPE_PING then [VNum MSG_TYPE_RESPONSE; VNum 7]
            else [VNum MSG_TYPE_ERROR_UNKNOWN; VNum 7; VStr "Unknown request type"])
           (port peerA) (address peerA)],
        Ret tt).
Proof.
  assert (0 < MSG_TYPE_GET) as Ht by (unfold MSG_TYPE_GET; lia).
  split; [reflexivity|]. split; [exact Ht|].
  exact (requests_other_than_ping_are_refused fresh MSG_TYPE_GET 7 [VBuf key1] peerA
           eq_refl Ht).
Defined.

(** C6, the claim at a concrete input: a listener is registered for
    [key1], a value for [key1] is published where none was stored, and the
    listener is not called. *)
Lemma listener_is_not_called_on_publish :
  exists e1 e2 : Engine TestSig,
    onPublish key1 (constant_fn 5 VUndef) fresh = (e1, [], Ret tt)
    /\ _events e1 !! hex key1 = Some [constant_fn 5 VUndef]
    /\ _varsMap e1 !! hex key1 = None
    /\ publish var1 (Some (constant_fn 6 VUndef)) e1 = (e2, [], Ret tt)
    /\ _varsMap e2 !! hex key1 = Some var1
    /\ ~ In (Call 5 [VSig (signature var1)]) (@nil (Event TestSig)).
Proof.
  do 2 eexists. repeat split; try reflexivity. intros [].
Qed.

Lemma publish_calls_no_listener_at_fresh :
  _requestTypesMap fresh = _requestTypesMap (constructor 0 0 : Engine TestSig)
  /\ (exists (e' : Engine TestSig) (out : list (Event TestSig)) (r : Res unit),
        publish var1 None fresh = (e', out, r)
        /\ _varsMap e' !! hex (publicKey var1) = Some var1
        /\ _events e' = _events fresh
        /\ (out = []
            \/ exists (g : UserFn TestSig) (n : Z),
                 None = Some g /\ out = [Call (fn_id g) [VNull; VNum n]])).
Proof.
  split; [reflexivity|].
  exact (proj1 (proj2 (publish_calls_no_listener fresh var1 None key1
                         (constant_fn 5 VUndef) 7 [] peerA eq_refl))).
Defined.

Lemma resolve_from_other_peer_is_ignored_at_peerB :
  0 <= 0
  /\ (forall obj, _rids one_pending !! 0 = Some obj -> p_rinfo obj <> peerB)
  /\ _getRidCallback (VNum 0) peerB one_pending = (one_pending, [], Ret None)
  /\ _handleMessage (VArr [VNum 0; VNum 0; VStr "late"]) peerB one_pending
     = (one_pending, [], Ret tt).
Proof.
  assert (forall obj, _rids one_pending !! 0 = Some obj -> p_rinfo obj <> peerB)
    as Hother.
  { intros obj Hobj. change (_rids one_pending !! 0) with (Some streaming) in Hobj.
    injection Hobj as <-. discriminate. }
  split; [lia|]. split; [exact Hother|].
  exact (resolve_from_other_peer_is_ignored one_pending 0 0 [VStr "late"] peerB
           (Z.le_refl 0) Hother).
Defined.

Lemma continue_keeps_the_request_alive_at_peerA :
  _rids one_pending !! 0 = Some streaming
  /\ rinfoEqual (p_rinfo streaming) peerA = true
  /\ exists e2 : Engine TestSig,
       _handleMessage (VArr [VNum MSG_TYPE_RESPONSE; VNum 0; VStr "part"])
         peerA one_pending
       = (e2, [Call 1 [VNull; VArr [VStr "part"]; VRinfo peerA]], Ret tt)
       /\ e2 = one_pending
       /\ _rids e2 !! 0 = Some streaming
       /\ timers e2 !! 0%nat = timers one_pending !! 0%nat
       /\ _getRidCallback (VNum 0) peerA e2 = (e2, [], Ret (Some (0, streaming))).
Proof.
  split; [reflexivity|]. split; [reflexivity|].
  exact (proj1 (continue_keeps_the_request_alive one_pending 0 streaming peerA
                  eq_refl eq_refl)
           [VStr "part"] one_pending
           [Call 1 [VNull; VArr [VStr "part"]; VRinfo peerA]] (VBool true) eq_refl).
Defined.

Lemma parseRinfo_swaps_address_and_port_at_localhost :
  JsString.lastIndexOf "8080" ":" = -1
  /\ parseRinfo (AStr "127.0.0.1:8080") (JFn (constant_fn 1 VUndef))
     = {| address := PNum 8080; port := PStr "127.0.0.1" |}.
Proof.
  split; [reflexivity|].
  exact (proj1 (parseRinfo_swaps_address_and_port "127.0.0.1" "8080"
                  (constant_fn 1 VUndef) fresh eq_refl)).
Defined.

(** C4 at a concrete input: [connect] to [peerA] is answered, the registry
    holds [peerA], and a first [lookup] for [key1] hands nothing to the
    socket, calls back with [(null, null)] and records the empty set. *)
Lemma lookup_after_connect_sends_no_get :
  let '(e1, out1, r1) :=
    connect (AStr "10.0.0.1") (JNum 4000) (Some (constant_fn 1 VUndef)) fresh in
  let '(e2, out2, r2) :=
    _handleMessage (VArr [VNum MSG_TYPE_RESPONSE; VNum 0]) peerA e1 in
  let '(e3, out3, r3) := lookup key1 None (Some (constant_fn 2 VUndef)) e2 in
  out1 = [SocketSend [VNum MSG_TYPE_PING; VNum 0] (PNum 4000) (PStr "10.0.0.1")]
  /\ out2 = [Call 1 [VNull; VArr []; VRinfo peerA]]
  /\ _peersMap e2 !! "10.0.0.1:4000" = Some peerA
  /\ out3 = [Call 2 [VNull; VNull]]
  /\ r3 = Ret tt
  /\ _peersVarsMap e3 !! hex key1 = Some [].
Proof. vm_compute. repeat split; reflexivity. Qed.

(** C4 at a second input: were a peer recorded for [key1], [lookup] would
    throw at [send] once the request is registered; no GET goes out and the
    callback is not called. *)
Lemma lookup_with_recorded_peer_throws :
  let '(e', out, r) :=
    lookup key1 None (Some (constant_fn 2 VUndef))
      (set_peersVarsMap <[ hex key1 := [peerA] ]> fresh) in
  out = []
  /\ r = Throw (TypeError "Cannot read properties of undefined (reading 'port')")
  /\ _rids e' !! 0 = Some {| p_rinfo := peerA; p_callback := CbLookup 0 peerA;
                             p_timeout := 0 |}.
Proof. vm_compute. repeat split; reflexivity. Qed.

(** C5 at a concrete input: on a fresh instance [publish] stores the value
    and returns; the callback is not called. *)
Lemma publish_on_fresh_instance_skips_the_callback :
  let '(e', out, r) := publish var1 (Some (constant_fn 6 VUndef)) fresh in
  out = [] /\ r = Ret tt /\ _varsMap e' !! hex key1 = Some var1.
Proof. vm_compute. repeat split; reflexivity. Qed.

(** C7 at a concrete input: the peer answers PING with an error response
    and the caller's callback receives [null], not the error. *)
Lemma connect_answered_with_error_calls_back_with_null :
  let '(e1, out1, r1) :=
    connect (AStr "10.0.0.1") (JNum 4000) (Some (constant_fn 1 VUndef)) fresh in
  let '(e2, out2, r2) :=
    _handleMessage (VArr [VNum (-3); VNum 0; VStr "refused"]) peerA e1 in
  out2 = [Call 1 [VNull; VArr []; VRinfo peerA]]
  /\ r2 = Ret tt
  /\ _peersMap e2 !! "10.0.0.1:4000" = None
  /\ _rids e2 !! 0 = None.
Proof. vm_compute. repeat split; reflexivity. Qed.

(** ** The further properties at concrete inputs *)

Lemma request_for_NaN_endpoint_is_never_resolved_at_unnamed :
  _rids one_unanswerable !! 0 = Some unanswerable
  /\ (address (p_rinfo unanswerable) = PNaN \/ port (p_rinfo unanswerable) = PNaN)
  /\ 0 <= 0
  /\ _handleMessage (VArr [VNum MSG_TYPE_RESPONSE; VNum 0; VStr "pong"]) unnamed
       one_unanswerable
     = (one_unanswerable, [], Ret tt).
Proof.
  split; [reflexivity|]. split; [left; reflexivity|]. split; [lia|].
  exact (request_for_NaN_endpoint_is_never_resolved one_unanswerable 0 0 unanswerable
           [VStr "pong"] unnamed eq_refl (or_introl eq_refl) (Z.le_refl 0)).
Defined.

Lemma parseRinfo_without_colon_at_localhost :
  JsString.lastIndexOf "localhost" ":" = -1
  /\ (forall n, (JUndef : PortArg TestSig) <> JNum n)
  /\ parseRinfo (AStr "localhost") (JUndef : PortArg TestSig) = unnamed
  /\ exists e' : Engine TestSig,
       connect (AStr "localhost") JUndef None fresh
       = (e', [SocketSend [VNum MSG_TYPE_PING; VNum 0] (PStr "") PNaN], Ret tt)
       /\ p_rinfo <$> _rids e' !! 0 = Some unnamed.
Proof.
  assert (forall n, (JUndef : PortArg TestSig) <> JNum n) as Hp
    by (intros n; discriminate).
  split; [reflexivity|]. split; [exact Hp|].
  exact (parseRinfo_without_colon "localhost" JUndef None fresh eq_refl Hp).
Defined.

Lemma publish_writes_only_its_slot_at_key2 :
  key2 <> publicKey var1
  /\ exists (e' : Engine TestSig) (out : list (Event TestSig)) (r : Res unit),
       publish var1 None fresh = (e', out, r)
       /\ _varsMap e' !! hex (publicKey var1) = Some var1
       /\ _varsMap e' !! hex key2 = _varsMap fresh !! hex key2.
Proof.
  assert (key2 <> publicKey var1) as Hne by discriminate.
  split; [exact Hne|].
  exact (publish_writes_only_its_slot fresh var1 None key2 Hne).
Defined.

Lemma first_allocations_are_distinct_at_3 :
  0 <= _nextRid fresh <= RID_MAX
  /\ Z.of_nat 3 <= RID_MAX + 1
  /\ exists (e : Engine TestSig) (ids : list Z),
       allocate 3 peerA (CbUser (constant_fn 1 VUndef)) fresh = (e, [], Ret ids)
       /\ length ids = 3%nat
       /\ NoDup ids
       /\ Forall (fun k => 0 <= k <= RID_MAX) ids
       /\ 0 <= _nextRid e <= RID_MAX.
Proof.
  assert (0 <= _nextRid fresh <= RID_MAX) as Hs by (cbn; unfold RID_MAX; lia).
  assert (Z.of_nat 3 <= RID_MAX + 1) as Hn by (unfold RID_MAX; lia).
  split; [exact Hs|]. split; [exact Hn|].
  exact (first_allocations_are_distinct fresh peerA (CbUser (constant_fn 1 VUndef)) 3
           Hs Hn).
Defined.

Lemma response_reaches_the_callback_once_at_peerA :
  rinfoEqual peerA peerA = true
  /\ is_continue (fn_ret (constant_fn 1 VUndef)
                    [VNull; VArr [VStr "pong"]; VRinfo peerA]) = false
  /\ exists e1 e2 : Engine TestSig,
       _genRid peerA (CbUser (constant_fn 1 VUndef)) fresh = (e1, [], Ret 0)
       /\ _handleMessage (VArr [VNum MSG_TYPE_RESPONSE; VNum 0; VStr "pong"]) peerA e1
          = (e2, [Call 1 [VNull; VArr [VStr "pong"]; VRinfo peerA]], Ret tt)
       /\ _rids e2 !! 0 = None
       /\ fire_timer 0 e2 = (e2, [], Ret tt)
       /\ _handleMessage (VArr [VNum MSG_TYPE_RESPONSE; VNum 0; VStr "pong"]) peerA e2
          = (e2, [], Ret tt).
Proof.
  split; [reflexivity|]. split; [reflexivity|].
  exact (response_reaches_the_callback_once fresh peerA (constant_fn 1 VUndef)
           [VStr "pong"] eq_refl eq_refl).
Defined.

Lemma malformed_messages_are_dropped_at_text_rid :
  (forall (type : Z) (rid : value TestSig) (rest : list (value TestSig)),
      VArr [VNum 0; VStr "7"] = VArr (VNum type :: rid :: rest) ->
      is_number rid = false)
  /\ _handleMessage (VArr [VNum 0; VStr "7"]) peerA one_pending
     = (one_pending, [], Ret tt).
Proof.
  assert (forall (type : Z) (rid : value TestSig) (rest : list (value TestSig)),
             VArr [VNum 0; VStr "7"] = VArr (VNum type :: rid :: rest) ->
             is_number rid = false) as H
    by (intros type rid rest [= _ <- _]; reflexivity).
  split; [exact H|].
  exact (malformed_messages_are_dropped one_pending (VArr [VNum 0; VStr "7"]) peerA H).
Defined.

Lemma error_response_reaches_the_callback_at_peerA :
  _rids one_pending !! 0 = Some streaming
  /\ p_callback streaming = CbUser (constant_fn 1 (VBool true))
  /\ rinfoEqual (p_rinfo streaming) peerA = true
  /\ -3 < 0
  /\ exists e2 : Engine TestSig,
       _handleMessage (VArr [VNum (-3); VNum 0; VNum 5; VNum 6]) peerA
         one_pending
       = (e2,
          [Call 1 [VError (VNum 5) (VNum (-3)); VArr [VNum 6]; VRinfo peerA]],
          Ret tt)
       /\ _rids e2 !! 0 = None
       /\ timers e2 !! p_timeout streaming = None.
Proof.
  assert (-3 < 0) as Hcode by lia.
  split; [reflexivity|]. split; [reflexivity|]. split; [reflexivity|].
  split; [exact Hcode|].
  exact (error_response_reaches_the_callback one_pending 0 (-3) streaming
           (constant_fn 1 (VBool true)) peerA [VNum 5; VNum 6]
           eq_refl eq_refl eq_refl Hcode).
Defined.

Lemma connect_without_callback_throws_on_the_answer_at_peerA :
  4000 <> 0
  /\ exists e1 e2 e3 : Engine TestSig,
       connect (AStr "10.0.0.1") (JNum 4000) None (constructor 0 0)
       = (e1, [SocketSend [VNum MSG_TYPE_PING; VNum 0] (PNum 4000) (PStr "10.0.0.1")],
          Ret tt)
       /\ _handleMessage (VArr [VNum MSG_TYPE_RESPONSE; VNum 0]) peerA e1
          = (e2, [], Throw (TypeError "callback.call is not a function"))
       /\ _peersMap e2 !! peer_key peerA = Some peerA
       /\ is_Some (_rids e2 !! 0)
       /\ fire_timer 0 e2
          = (e3, [], Throw (TypeError "callback.call is not a function"))
       /\ _peersMap e3 !! peer_key peerA = None
       /\ _rids e3 !! 0 = None.
Proof.
  assert (4000 <> 0) as Hp by lia.
  split; [exact Hp|].
  exact (connect_without_callback_throws_on_the_answer 0 0 4000 "10.0.0.1" [] Hp).
Defined.

Lemma actions_leave_store_and_listeners_at_connect :
  perform (DoConnect (AStr "10.0.0.1") (JNum 4000) None) fresh
  = (after_genRid peerA (CbConnect peerA (JNum 4000)) fresh,
     [SocketSend [VNum MSG_TYPE_PING; VNum 0] (PNum 4000) (PStr "10.0.0.1")],
     Ret tt)
  /\ _varsMap (after_genRid peerA (CbConnect peerA (JNum 4000)) fresh)
     = _varsMap fresh
  /\ _events (after_genRid peerA (CbConnect peerA (JNum 4000)) fresh)
     = _events fresh.
Proof.
  split; [reflexivity|].
  destruct (actions_leave_store_and_listeners
              (DoConnect (AStr "10.0.0.1") (JNum 4000) None) fresh
              (after_genRid peerA (CbConnect peerA (JNum 4000)) fresh)
              [SocketSend [VNum MSG_TYPE_PING; VNum 0] (PNum 4000) (PStr "10.0.0.1")]
              (Ret tt) eq_refl) as (Hvars & Hevents & _).
  split; [apply Hvars | apply Hevents]; intros; discriminate.
Defined.

Lemma pending_requests_keep_their_timers_at_one_pending :
  reachable one_pending
  /\ forall (rid : Z) (obj : Pending TestSig),
       _rids one_pending !! rid = Some obj ->
       timers one_pending !! p_timeout obj
       = Some {| t_rid := rid; t_callback := p_callback obj |}.
Proof.
  assert (reachable one_pending) as Hreach.
  { apply (reachable_step fresh one_pending
             (DoGenRid peerA (constant_fn 1 (VBool true))) [] (Ret tt)).
    - apply reachable_new.
    - reflexivity. }
  split; [exact Hreach|].
  exact (pending_requests_keep_their_timers one_pending Hreach).
Defined.




Lemma identifiers_stay_in_range_at_connect :
  perform (DoConnect (AStr "10.0.0.1") (JNum 4000) None) fresh
  = (after_genRid peerA (CbConnect peerA (JNum 4000)) fresh,
     [SocketSend [VNum MSG_TYPE_PING; VNum 0] (PNum 4000) (PStr "10.0.0.1")],
     Ret tt)
  /\ 0 <= _nextRid fresh <= RID_MAX
  /\ (forall rid, is_Some (_rids fresh !! rid) -> 0 <= rid <= RID_MAX)
  /\ 0 <= _nextRid (after_genRid peerA (CbConnect peerA (JNum 4000)) fresh) <= RID_MAX
  /\ (forall rid,
        is_Some (_rids (after_genRid peerA (CbConnect peerA (JNum 4000)) fresh) !! rid) ->
        0 <= rid <= RID_MAX).
Proof.
  assert (0 <= _nextRid fresh <= RID_MAX) as Hnext by (cbn; unfold RID_MAX; lia).
  assert (forall rid, is_Some (_rids fresh !! rid) -> 0 <= rid <= RID_MAX) as Hrids.
  { intros rid [obj Hobj]. cbn in Hobj. rewrite lookup_empty in Hobj. discriminate. }
  split; [reflexivity|]. split; [exact Hnext|]. split; [exact Hrids|].
  exact (identifiers_stay_in_range
           (DoConnect (AStr "10.0.0.1") (JNum 4000) None) fresh
           (after_genRid peerA (CbConnect peerA (JNum 4000)) fresh)
           [SocketSend [VNum MSG_TYPE_PING; VNum 0] (PNum 4000) (PStr "10.0.0.1")]
           (Ret tt) eq_refl Hnext Hrids).
Defined.

End Instances.
